(** * README generation agent: a shallow embedding of its two variants

    The repository holds two implementations of the same tool:
    - [App]    : src/app      (config.py, tools.py, agents.py, __main__.py)
    - [SrcApp] : src/src/app  (config.py, tools.py, agents.py)

    Python values are modelled as follows.
    - [str]   : a list of code points ([pystr]);
    - [bytes] : [list byte];
    - [int]   : [Z];
    - [pathlib.Path] : an anchor and the list of the following components;
    - the file system : one tree of directories and regular files,
      resolved from the root or the working directory; the tree does
      not change during a run, though a second reading of a file may
      fail where the first did not; symbolic links are outside the
      model;
    - exceptions : an [exn] value carrying its class and its text;
    - effects (print, sleep, the remote call) : a trace of events;
    - the command line : the list of the words after the program name.
    Calls to [logging] leave no trace in the model.

    Where the model ends.  [print] always succeeds.  A directory fails
    to list by PermissionError only: what the library's glob does with
    another error of a listing depends on its version, so such errors
    are left out, and where the tree renderer of src/app is said to
    return, that is said of such file systems.  argparse is
    followed on command lines whose options are spelled in full;
    [parse_args] gives no answer on the others. *)

From Stdlib Require Import Strings.String Strings.Ascii Strings.Byte.
From Stdlib Require Import List NArith ZArith Bool Lia.
From Stdlib Require Import Sorting.Sorted Sorting.Permutation.
From Stdlib Require DecimalString.
Import ListNotations.
Open Scope list_scope.

(* ================================================================== *)
(** ** Python strings *)

Definition pystr := list N.

Definition py (s : string) : pystr :=
  map N_of_ascii (list_ascii_of_string s).

Fixpoint str_eqb (a b : pystr) : bool :=
  match a, b with
  | [], [] => true
  | x :: a', y :: b' => N.eqb x y && str_eqb a' b'
  | _, _ => false
  end.

(** [x in l] for a set or a list of strings. *)
Definition str_in (x : pystr) (l : list pystr) : bool :=
  existsb (str_eqb x) l.

(** [s.startswith(p)] *)
Fixpoint startswith (s p : pystr) : bool :=
  match p, s with
  | [], _ => true
  | c :: p', d :: s' => N.eqb c d && startswith s' p'
  | _ :: _, [] => false
  end.

(** [needle in hay] for strings. *)
Fixpoint contains (hay needle : pystr) : bool :=
  startswith hay needle ||
  match hay with
  | [] => false
  | _ :: hay' => contains hay' needle
  end.

(** [sep.join(parts)] *)
Fixpoint join (sep : pystr) (parts : list pystr) : pystr :=
  match parts with
  | [] => []
  | [p] => p
  | p :: rest => p ++ sep ++ join sep rest
  end.

(** [s.split(sep)] for a one-character separator. *)
Fixpoint split_on (sep : N) (s : pystr) : list pystr :=
  match s with
  | [] => [[]]
  | c :: s' =>
      if N.eqb c sep then [] :: split_on sep s'
      else match split_on sep s' with
           | [] => [[c]]
           | w :: ws => (c :: w) :: ws
           end
  end.

(** [s.rfind(c)] : the index of the last occurrence, [None] for -1. *)
Fixpoint rfind (c : N) (s : pystr) : option nat :=
  match s with
  | [] => None
  | x :: s' =>
      match rfind c s' with
      | Some i => Some (S i)
      | None => if N.eqb x c then Some 0 else None
      end
  end.

(** [s[:n]] for an [int] n: a negative bound counts from the end. *)
Definition slice_to (s : pystr) (n : Z) : pystr :=
  if (n <? 0)%Z then firstn (Z.to_nat (Z.of_nat (length s) + n)) s
  else firstn (Z.to_nat n) s.

(** [str(n)] for a length. *)
Definition str_of_nat (n : nat) : pystr :=
  py (DecimalString.NilZero.string_of_uint (Nat.to_uint n)).

(** [<] on strings: lexicographic on code points. *)
Definition str_compare : pystr -> pystr -> comparison :=
  list_compare N.compare.

Definition str_ltb (a b : pystr) : bool :=
  match str_compare a b with Lt => true | _ => false end.

Definition slash : N := 47.
Definition dot : N := 46.
Definition nl : pystr := [10%N].
Definition dquote : pystr := [34%N].

(** Case folding of [str.lower()] is the interpreter's; it is an
    interface of the model, with the ASCII table as its instance. *)
Class StrLower := lower : pystr -> pystr.

Definition ascii_lower_char (c : N) : N :=
  if (65 <=? c)%N && (c <=? 90)%N then (c + 32)%N else c.

#[export] Instance ascii_lower : StrLower := map ascii_lower_char.

(* ================================================================== *)
(** ** pathlib.PurePosixPath *)

Record Path := mkPath {
  anchor : pystr;            (* "", "/" or "//" *)
  comps : list pystr         (* the components after the anchor *)
}.

(** [Path(s)]: empty components and single dots are collapsed, two
    leading slashes (exactly) are kept. *)
Definition Path_of (s : pystr) : Path :=
  let comps :=
    filter (fun c => negb (str_eqb c [] || str_eqb c [dot])) (split_on slash s) in
  let anc :=
    if startswith s [slash; slash] && negb (startswith s [slash; slash; slash])
    then [slash; slash]
    else if startswith s [slash] then [slash] else [] in
  mkPath anc comps.

(** [p.parts] *)
Definition parts (p : Path) : list pystr :=
  match anchor p with
  | [] => comps p
  | a => a :: comps p
  end.

(** [p.name] *)
Definition name_of (p : Path) : pystr := last (comps p) [].

(** [p / name] for a single component. *)
Definition child (p : Path) (name : pystr) : Path :=
  mkPath (anchor p) (comps p ++ [name]).

(** [p.suffix] *)
Definition suffix_of_name (name : pystr) : pystr :=
  match rfind dot name with
  | Some i =>
      if Nat.ltb 0 i && Nat.ltb i (length name - 1) then skipn i name else []
  | None => []
  end.

Definition suffix (p : Path) : pystr := suffix_of_name (name_of p).

(** [str(p)] *)
Definition str_of_path (p : Path) : pystr :=
  match anchor p, comps p with
  | [], [] => [dot]
  | a, t => a ++ join [slash] t
  end.

Fixpoint strip_prefix (pre l : list pystr) : option (list pystr) :=
  match pre, l with
  | [], _ => Some l
  | x :: pre', y :: l' => if str_eqb x y then strip_prefix pre' l' else None
  | _ :: _, [] => None
  end.

(** [p.relative_to(base)]: [None] stands for ValueError. *)
Definition relative_to (p base : Path) : option Path :=
  if str_eqb (anchor p) (anchor base) then
    match strip_prefix (comps base) (comps p) with
    | Some rest => Some (mkPath [] rest)
    | None => None
    end
  else None.

(* ================================================================== *)
(** ** Exceptions and results *)

Inductive exn_class :=
| PermissionError | FileNotFoundError | NotADirectoryError | IsADirectoryError
| OtherOSError | UnicodeDecodeError | ValueError | OtherException.

Record exn := mkExn { exn_kind : exn_class; exn_text : pystr }.

Inductive result (A : Type) :=
| Ok (a : A)
| Raise (e : exn).
Arguments Ok {A} a.
Arguments Raise {A} e.

Definition is_PermissionError (e : exn) : bool :=
  match exn_kind e with PermissionError => true | _ => false end.

Definition is_UnicodeDecodeError (e : exn) : bool :=
  match exn_kind e with UnicodeDecodeError => true | _ => false end.

(* ================================================================== *)
(** ** The file system *)

(** A file carries the outcome of opening and reading it, and of a
    second reading later in the run; a directory whose [listable] flag
    is off raises PermissionError when it is listed.  The children are
    in the order in which the system enumerates them. *)
Unset Elimination Schemes.
Inductive node :=
| File (name : pystr) (first_read retry_read : result (list byte))
| Dir (name : pystr) (listable : bool) (children : list node).
Set Elimination Schemes.

Definition node_name (n : node) : pystr :=
  match n with File nm _ _ => nm | Dir nm _ _ => nm end.

Definition node_is_dir (n : node) : bool :=
  match n with Dir _ _ _ => true | File _ _ _ => false end.

Definition node_is_file (n : node) : bool := negb (node_is_dir n).

Fixpoint find_child (nm : pystr) (ns : list node) : option node :=
  match ns with
  | [] => None
  | n :: ns' => if str_eqb (node_name n) nm then Some n else find_child nm ns'
  end.

(** Path resolution, one component at a time, without symbolic links:
    [stack] holds the directories above [top].  An empty component or a
    single dot asks [top] to be a directory; ".." steps back. *)
Fixpoint walk_path (stack : list node) (top : node) (segs : list pystr)
  : option node :=
  match segs with
  | [] => Some top
  | s :: segs' =>
      match top with
      | File _ _ _ => None
      | Dir _ _ cs =>
          if str_eqb s [] || str_eqb s [dot] then walk_path stack top segs'
          else if str_eqb s [dot; dot] then
            match stack with
            | [] => walk_path [] top segs'
            | up :: stack' => walk_path stack' up segs'
            end
          else
            match find_child s cs with
            | Some c => walk_path (top :: stack) c segs'
            | None => None
            end
      end
  end.

Record filesystem := mkFs {
  fs_root : node;            (* the directory "/" *)
  fs_cwd : list pystr        (* the working directory, below "/" *)
}.

(** [os.stat(s)] on a path given as a string. *)
Definition os_stat (fs : filesystem) (s : pystr) : option node :=
  match s with
  | [] => None
  | c :: _ =>
      if N.eqb c slash then walk_path [] (fs_root fs) (split_on slash s)
      else walk_path [] (fs_root fs) (fs_cwd fs ++ split_on slash s)
  end.

(** [os.path.exists(s)], [os.path.isdir(s)] *)
Definition os_path_exists (fs : filesystem) (s : pystr) : bool :=
  match os_stat fs s with Some _ => true | None => false end.

Definition os_path_isdir (fs : filesystem) (s : pystr) : bool :=
  match os_stat fs s with Some (Dir _ _ _) => true | _ => false end.

(** What a [Path] names. *)
Definition resolve (fs : filesystem) (p : Path) : option node :=
  os_stat fs (str_of_path p).

Definition exists_ (fs : filesystem) (p : Path) : bool :=
  match resolve fs p with Some _ => true | None => false end.

Definition is_dir (fs : filesystem) (p : Path) : bool :=
  match resolve fs p with Some (Dir _ _ _) => true | _ => false end.

(** The bytes that [open(p, ...).read()] gives at the first reading of
    the run ([retry = false]) or at a later one. *)
Definition read_bytes (fs : filesystem) (p : Path) (retry : bool)
  : result (list byte) :=
  match resolve fs p with
  | None => Raise (mkExn FileNotFoundError (str_of_path p))
  | Some (Dir _ _ _) => Raise (mkExn IsADirectoryError (str_of_path p))
  | Some (File _ r1 r2) => if retry then r2 else r1
  end.

(** Listing a directory ([os.scandir], [Path.iterdir]); [kids] is what
    the caller attaches to each child. *)
Definition listing {A} (n : node) (p : Path) (kids : list A) : result (list A) :=
  match n with
  | File _ _ _ => Raise (mkExn NotADirectoryError (str_of_path p))
  | Dir _ false _ => Raise (mkExn PermissionError (str_of_path p))
  | Dir _ true _ => Ok kids
  end.

(* ================================================================== *)
(** ** Text decoding *)

Definition is_cont (b : N) : bool := (128 <=? b)%N && (b <=? 191)%N.
Definition in_range (lo hi b : N) : bool := (lo <=? b)%N && (b <=? hi)%N.

(** The strict UTF-8 decoder: shortest forms only, no surrogates,
    nothing above U+10FFFF. *)
Fixpoint utf8_decode (bs : list N) : option pystr :=
  match bs with
  | [] => Some []
  | b0 :: r0 =>
      if (b0 <? 128)%N then option_map (cons b0) (utf8_decode r0)
      else if in_range 194 223 b0 then
        match r0 with
        | b1 :: r1 =>
            if is_cont b1
            then option_map (cons ((b0 - 192) * 64 + (b1 - 128))%N) (utf8_decode r1)
            else None
        | _ => None
        end
      else if in_range 224 239 b0 then
        match r0 with
        | b1 :: b2 :: r2 =>
            if is_cont b1 && is_cont b2
               && (negb (N.eqb b0 224) || (160 <=? b1)%N)
               && (negb (N.eqb b0 237) || (b1 <=? 159)%N)
            then option_map
                   (cons ((b0 - 224) * 4096 + (b1 - 128) * 64 + (b2 - 128))%N)
                   (utf8_decode r2)
            else None
        | _ => None
        end
      else if in_range 240 244 b0 then
        match r0 with
        | b1 :: b2 :: b3 :: r3 =>
            if is_cont b1 && is_cont b2 && is_cont b3
               && (negb (N.eqb b0 240) || (144 <=? b1)%N)
               && (negb (N.eqb b0 244) || (b1 <=? 143)%N)
            then option_map
                   (cons ((b0 - 240) * 262144 + (b1 - 128) * 4096
                          + (b2 - 128) * 64 + (b3 - 128))%N)
                   (utf8_decode r3)
            else None
        | _ => None
        end
      else None
  end.

(** latin-1 maps every byte to the code point of the same number. *)
Definition latin1_decode (bs : list byte) : pystr := map Byte.to_N bs.

(** Text mode reads with universal newlines. *)
Fixpoint translate_newlines (s : pystr) : pystr :=
  match s with
  | [] => []
  | c :: s' =>
      if N.eqb c 13 then
        10%N :: match s' with
                | d :: s'' => if N.eqb d 10 then translate_newlines s''
                              else translate_newlines s'
                | [] => []
                end
      else c :: translate_newlines s'
  end.

Inductive encoding := UTF8 | LATIN1.

Definition utf8_error : exn :=
  mkExn UnicodeDecodeError (py "'utf-8' codec can't decode").

(** [path.read_text(encoding=...)] *)
Definition read_text (fs : filesystem) (p : Path) (enc : encoding) (retry : bool)
  : result pystr :=
  match read_bytes fs p retry with
  | Raise e => Raise e
  | Ok bs =>
      match enc with
      | UTF8 =>
          match utf8_decode (map Byte.to_N bs) with
          | Some s => Ok (translate_newlines s)
          | None => Raise utf8_error
          end
      | LATIN1 => Ok (translate_newlines (latin1_decode bs))
      end
  end.

(* ================================================================== *)
(** ** Library traversals and sorting *)

(** [sorted(l, key=...)]: a stable sort that only asks [<] of the keys. *)
Section Sorted.
Context {A : Type} (lt : A -> A -> bool).

Fixpoint insert (x : A) (l : list A) : list A :=
  match l with
  | [] => [x]
  | y :: l' => if lt y x then y :: insert x l' else x :: l
  end.

Definition sorted (l : list A) : list A := fold_right insert [] l.

End Sorted.

Definition is_nil {A} (l : list A) : bool :=
  match l with [] => true | _ => false end.
Arguments is_nil {A} l : simpl never.

(** [os.walk(top)], top-down, errors of the listing ignored.  [keep] is
    the test of the caller's in-place rewrite of [dirs], which decides
    where the walk descends. *)
Fixpoint os_walk (keep : pystr -> bool) (n : node) (top : Path)
  : list (Path * list pystr * list pystr) :=
  match n with
  | File _ _ _ => []
  | Dir _ false _ => []
  | Dir _ true cs =>
      let dirs := filter keep (map node_name (filter node_is_dir cs)) in
      let nondirs := map node_name (filter node_is_file cs) in
      (top, dirs, nondirs) ::
      flat_map (fun c =>
                  if node_is_dir c && keep (node_name c)
                  then os_walk keep c (child top (node_name c))
                  else []) cs
  end.

(** The directories that [rglob] visits: the start, then each
    sub-directory in turn, depth first. *)
Fixpoint iterate_directories (n : node) (p : Path) : list (Path * node) :=
  match n with
  | File _ _ _ => []
  | Dir _ false _ => [(p, n)]
  | Dir _ true cs =>
      (p, n) :: flat_map (fun c =>
                            if node_is_dir c
                            then iterate_directories c (child p (node_name c))
                            else []) cs
  end.

(** [root.rglob("*")]: every entry below the root, the children of
    each visited directory in turn; a directory that cannot be listed
    gives nothing, a root that is no directory gives nothing.  (The
    library drops a path it has already yielded; with distinct names
    in each directory there is none.) *)
Definition rglob_star (fs : filesystem) (root : Path) : list Path :=
  match resolve fs root with
  | Some (Dir nm l cs) =>
      flat_map (fun '(d, dn) =>
                  match dn with
                  | Dir _ true kids => map (fun c => child d (node_name c)) kids
                  | _ => []
                  end)
               (iterate_directories (Dir nm l cs) root)
  | _ => []
  end.

(** Sequencing of computations that may raise. *)
Definition bind_result {A B} (r : result A) (k : A -> result B) : result B :=
  match r with
  | Ok a => k a
  | Raise e => Raise e
  end.

Notation "x <- r ;; k" := (bind_result r (fun x => k))
  (at level 61, r at next level, right associativity).

(** [try: body except PermissionError: handler] *)
Definition except_PermissionError {A} (body : result A) (handler : result A)
  : result A :=
  match body with
  | Ok a => Ok a
  | Raise e => if is_PermissionError e then handler else Raise e
  end.

(** The box-drawing pieces of both tree renderers, by code point:
    U+2514 (up and right), U+251C (vertical and right), U+2500
    (horizontal), U+2502 (vertical), and the space. *)
Definition last_connector : pystr := [9492; 9472; 9472; 32]%N.
Definition mid_connector : pystr := [9500; 9472; 9472; 32]%N.
Definition last_extension : pystr := [32; 32; 32; 32]%N.
Definition mid_extension : pystr := [9474; 32; 32; 32]%N.

(* ================================================================== *)
(** ** The world of a run and its effects *)

(** A request to the remote generation endpoint. *)
Record request := mkRequest {
  req_model : pystr;
  req_contents : list pystr
}.

(** What the endpoint hands back; reading [response.text] may raise. *)
Record response := mkResponse { response_text : result pystr }.

Record world := mkWorld {
  disk : filesystem;
  GEMINI_API_KEY : option pystr;          (* the environment variable *)
  endpoint : request -> result response   (* the remote service *)
}.

Inductive event :=
| Printed (s : pystr)          (* print(s) *)
| Slept (seconds : nat)        (* time.sleep(seconds) *)
| Requested (r : request).     (* a call of the remote endpoint *)

(** A computation leaves a trace and returns or raises. *)
Definition M (A : Type) : Type := list event * result A.

Definition ret {A} (a : A) : M A := ([], Ok a).
Definition throw {A} (e : exn) : M A := ([], Raise e).
Definition lift {A} (r : result A) : M A := ([], r).
Definition emit (e : event) : M unit := ([e], Ok tt).

Definition bind {A B} (m : M A) (k : A -> M B) : M B :=
  match m with
  | (tr, Ok a) => let '(tr', r) := k a in (tr ++ tr', r)
  | (tr, Raise e) => (tr, Raise e)
  end.

Notation "x <~ m ;; k" := (bind m (fun x => k))
  (at level 61, m at next level, right associativity).
Notation "m ;;; k" := (bind m (fun _ => k))
  (at level 61, right associativity).

(** [try: body except Exception as e: handler(e)] *)
Definition try_except {A} (body : M A) (handler : exn -> M A) : M A :=
  match body with
  | (tr, Ok a) => (tr, Ok a)
  | (tr, Raise e) => let '(tr', r) := handler e in (tr ++ tr', r)
  end.

(** The one remote call of a run. *)
Definition generate_content (w : world) (r : request) : M response :=
  emit (Requested r) ;;; lift (endpoint w r).

(** [bool(s)] for an optional string: None and "" are false. *)
Definition truthy (o : option pystr) : bool :=
  match o with
  | Some (_ :: _) => true
  | _ => false
  end.

Definition trace {A} (m : M A) : list event := fst m.
Definition outcome {A} (m : M A) : result A := snd m.

Definition is_request (e : event) : bool :=
  match e with Requested _ => true | _ => false end.

(** The number of remote calls in a trace. *)
Definition remote_calls (tr : list event) : nat :=
  length (filter is_request tr).

(* ================================================================== *)
(** ** src/app *)

Module App.

(** config.py *)
Definition SUPPORTED_EXTENSIONS : list pystr :=
  map py [".py"; ".js"; ".ts"; ".md"; ".txt"; ".html"; ".css"; ".json";
          ".yaml"; ".yml"; ".java"; ".c"; ".cpp"; ".h"; ".hpp"]%string.

Definition EXCLUSION_PATTERNS : list pystr :=
  map py [".git"; "__pycache__"; "node_modules"; ".idea"; ".vscode"; "venv";
          "env"; "dist"; "build"; "coverage"]%string.

(** tools.py: should_exclude.  The second test of the loop body only
    passes. *)
Fixpoint should_exclude_parts (ps : list pystr) : bool :=
  match ps with
  | [] => false
  | part :: ps' =>
      if str_in part EXCLUSION_PATTERNS then true else should_exclude_parts ps'
  end.

Definition should_exclude (path : Path) : bool :=
  should_exclude_parts (parts path).

(** tools.py: list_files.  Nothing in the body of the try raises in the
    model, so its handler is not reached. *)
Definition list_files (fs : filesystem) (directory : pystr) : list Path :=
  let dir_path := Path_of directory in
  if negb (exists_ fs dir_path) then []
  else if negb (is_dir fs dir_path) then []
  else
    match resolve fs dir_path with
    | None => []
    | Some n =>
        fold_left
          (fun files_list '(root, _, files) =>
             fold_left
               (fun acc file =>
                  let file_path := child root file in
                  if negb (str_in (suffix file_path) SUPPORTED_EXTENSIONS)
                  then acc
                  else acc ++ [file_path])
               files files_list)
          (os_walk (fun d => negb (str_in d EXCLUSION_PATTERNS)) n dir_path)
          []
    end.

(** tools.py: read_file_content *)
Definition read_file_content (fs : filesystem) (path : Path) : option pystr :=
  match read_text fs path UTF8 false with
  | Ok s => Some s
  | Raise e =>
      if is_UnicodeDecodeError e then
        match read_text fs path LATIN1 true with
        | Ok s => Some s
        | Raise _ => None
        end
      else None
  end.

(** tools.py: generate_directory_tree *)

(** The sort key [(e.is_file(), e.name.lower())], compared as a tuple. *)
Definition key_lt `{StrLower} (a b : node) : bool :=
  match node_is_file a, node_is_file b with
  | false, true => true
  | true, false => false
  | _, _ => str_ltb (lower (node_name a)) (lower (node_name b))
  end.

(** An entry of a listing, with the rendering of what is below it. *)
Definition entry : Type := node * (pystr -> result pystr).

Definition shown (path : Path) (e : node) : bool :=
  negb (str_in (node_name e) EXCLUSION_PATTERNS)
  && negb (should_exclude (child path (node_name e))).

(** The line of one entry. *)
Definition entry_line (prefix : pystr) (is_last : bool) (e : node) : pystr :=
  let connector := if is_last then last_connector else mid_connector in
  prefix ++ connector ++ node_name e
  ++ (if node_is_dir e then [slash] else []) ++ nl.

(** The loop over the entries; an entry is the last one when nothing
    follows it. *)
Fixpoint render_entries (prefix : pystr) (entries : list entry) : result pystr :=
  match entries with
  | [] => Ok []
  | (e, below) :: rest =>
      let is_last := is_nil rest in
      let line := entry_line prefix is_last e in
      sub <- (if node_is_dir e
              then below (prefix ++ (if is_last then last_extension else mid_extension))
              else Ok []) ;;
      more <- render_entries prefix rest ;;
      Ok (line ++ sub ++ more)
  end.

(** The children that are drawn, in the order of the drawing. *)
Definition visible_entries `{StrLower} {T} (path : Path) (all : list (node * T))
  : list (node * T) :=
  sorted (fun a b => key_lt (fst a) (fst b))
         (filter (fun e => shown path (fst e)) all).

(** The body of _add_to_tree: the listing is sorted inside the try,
    whose handler returns; the loop follows the try. *)
Definition add_to_tree_body `{StrLower} (n : node) (path : Path) (prefix : pystr)
  (kids : list entry) : result pystr :=
  match except_PermissionError
          (all <- listing n path kids ;; Ok (Some (visible_entries path all)))
          (Ok None)
  with
  | Raise e => Raise e
  | Ok None => Ok []
  | Ok (Some entries) => render_entries prefix entries
  end.

Fixpoint add_to_tree `{StrLower} (n : node) (path : Path) : pystr -> result pystr :=
  fun prefix =>
    add_to_tree_body n path prefix
      match n with
      | File _ _ _ => []
      | Dir _ _ cs =>
          map (fun c => (c, add_to_tree c (child path (node_name c)))) cs
      end.

Definition generate_directory_tree `{StrLower} (fs : filesystem) (directory : pystr)
  : result pystr :=
  let dir_path := Path_of directory in
  if negb (exists_ fs dir_path) || negb (is_dir fs dir_path)
  then Ok (py "Invalid directory: " ++ directory)
  else
    match resolve fs dir_path with
    | None => Ok (py "Invalid directory: " ++ directory)
    | Some n =>
        body <- add_to_tree n dir_path [] ;;
        Ok (name_of dir_path ++ [slash] ++ nl ++ body)
    end.

(** models.py: FileSummary *)
Record FileSummary := mkFileSummary {
  path : pystr;
  extension : pystr;
  summary : pystr;
  content : pystr
}.

(** agents.py *)
Record READMEAgent := mkAgent {
  project_path : pystr;
  max_chars_per_file : Z;
  model : option pystr       (* the configured model, or None *)
}.

(** READMEAgent.__init__ *)
Definition init (w : world) (project_path : pystr) (max_chars_per_file : Z)
  : READMEAgent :=
  if truthy (GEMINI_API_KEY w)
  then mkAgent project_path max_chars_per_file (Some (py "gemini-2.0-flash"))
  else mkAgent project_path max_chars_per_file None.

Definition truncation_marker : pystr := nl ++ py "...(truncated)...".

(** The body of the loop of get_file_summaries, for one scanned file. *)
Definition summary_step (fs : filesystem) (self : READMEAgent)
  (summaries : list FileSummary) (file_path : Path) : list FileSummary :=
  match read_file_content fs file_path with
  | Some (c :: cs) =>
      let text := c :: cs in
      let rel_path :=
        match relative_to file_path (Path_of (project_path self)) with
        | Some r => str_of_path r
        | None => name_of file_path
        end in
      let text :=
        if (Z.of_nat (length text) >? max_chars_per_file self)%Z
        then slice_to text (max_chars_per_file self) ++ truncation_marker
        else text in
      summaries ++ [mkFileSummary rel_path (suffix file_path) (py "Content of " ++ rel_path) text]
  | _ => summaries
  end.

(** READMEAgent.get_file_summaries *)
Definition get_file_summaries (fs : filesystem) (self : READMEAgent)
  : list FileSummary :=
  let files := list_files fs (project_path self) in
  fold_left (summary_step fs self) files [].

(** READMEAgent.construct_system_prompt *)
Definition construct_system_prompt : pystr :=
  py "
You are an expert Technical Writer and Developer Advocate. Your goal is to analyze a codebase and generate a professional, comprehensive, and clear README.md file.

Your output must be strictly in VALID MARKDOWN format.

You will be provided with:
1. A directory tree structure of the project.
2. The contents of key files in the project.

Your task is to:
1. **Analyze the Project Structure**: Understand the organization of the code.
2. **Analyze File Contents**: Determine the purpose of the modules, classes, and functions.
3. **Identify Key Information**:
    - Project Name and Description (What does it do?)
    - Key Features (What are the main capabilities?)
    - Installation Instructions (How to set it up? Look for requirements.txt, setup.py, etc.)
    - Usage Examples (How to run it? Look for __main__.py, cli commands, etc.)
    - Technologies Used (Languages, libraries, frameworks).
4. **Generate the README.md**:
    - Use a clear and professional structure.
    - Include Badges if applicable (e.g., Python version, License).
    - Write a compelling introduction.
    - Provide step-by-step installation and usage guides.
    - If you see tests, mention how to run them.

**Strict Output Rules:**
- The output must be ONLY the markdown content of the README.md.
- Do not include conversational filler like " ++ dquote ++
  py "Here is the README" ++ dquote ++
  py ".
- Ensure all code blocks are properly fenced.
".

Definition no_files_message : pystr :=
  py "Error: No valid files found in the directory. Cannot generate README.".

Definition fence : pystr := py "```".

Definition context_header (tree : pystr) : pystr :=
  py "# Project Directory Tree" ++ nl ++ fence ++ nl ++ tree ++ nl ++ fence
  ++ nl ++ nl ++ py "# File Contents" ++ nl.

Definition context_section (s : FileSummary) : pystr :=
  nl ++ py "## File: " ++ path s ++ nl ++ fence
  ++ (if startswith (extension s) [dot] then List.tl (extension s) else py "text")
  ++ nl ++ content s ++ nl ++ fence ++ nl.

Definition build_context (tree : pystr) (summaries : list FileSummary) : pystr :=
  fold_left (fun context_str s => context_str ++ context_section s)
            summaries (context_header tree).

Definition dry_run_preview (summaries : list FileSummary) (context_str : pystr)
  : pystr :=
  py "[DRY RUN MODE]" ++ nl ++ py "            " ++ nl
  ++ py "Analysis complete." ++ nl
  ++ py "- Files found: " ++ str_of_nat (length summaries) ++ nl
  ++ py "- Total context size (approx): " ++ str_of_nat (length context_str)
  ++ py " characters" ++ nl ++ nl
  ++ py "Preview of Context Sent to LLM:" ++ nl
  ++ firstn 1000 context_str ++ py "..." ++ nl.

Definition missing_key_message (context_str : pystr) : pystr :=
  py "ERROR: GEMINI_API_KEY not set. " ++ nl ++ nl
  ++ py "Generated Context (Preview):" ++ nl ++ firstn 500 context_str ++ py "...".

Definition generation_error (e : exn) : pystr :=
  py "Error generating README: " ++ exn_text e.

(** READMEAgent.generate *)
Definition generate `{StrLower} (w : world) (self : READMEAgent) (dry_run : bool)
  : M pystr :=
  tree <~ lift (generate_directory_tree (disk w) (project_path self)) ;;
  let summaries := get_file_summaries (disk w) self in
  match summaries with
  | [] => ret no_files_message
  | _ :: _ =>
      let context_str := build_context tree summaries in
      if dry_run then ret (dry_run_preview summaries context_str)
      else
        match model self with
        | None => ret (missing_key_message context_str)
        | Some m =>
            try_except
              (let system_prompt := construct_system_prompt in
               response <~ generate_content w
                 (mkRequest m
                    [system_prompt;
                     py "Here is the codebase information:" ++ nl ++ nl
                     ++ context_str]) ;;
               lift (response_text response))
              (fun e => ret (generation_error e))
        end
  end.

End App.

(* ================================================================== *)
(** ** src/src/app *)

Module SrcApp.

(** config.py *)
Definition MODEL_NAME : pystr := py "gemini-2.0-flash".

Definition SUPPORTED_EXTENSIONS : list pystr :=
  map py [".py"; ".md"; ".txt"; ".json"; ".yml"; ".yaml"; ".html"; ".css";
          ".js"]%string.

Definition EXCLUSION_PATTERNS : list pystr :=
  map py ["__pycache__"; ".git"; "venv"; ".env"; "node_modules"; "*.pyc";
          "dist"; "build"]%string.

(** tools.py *)
Record FileSummary := mkFileSummary {
  relative_path : pystr;
  content : pystr
}.

(** [<] on the children of one directory, as paths. *)
Definition path_lt (a b : Path) : bool :=
  match list_compare str_compare (parts a) (parts b) with
  | Lt => true
  | _ => false
  end.

Definition entry : Type := node * (pystr -> result pystr).

Definition item_line (indent : pystr) (is_last : bool) (item : node) : pystr :=
  let connector := if is_last then last_connector else mid_connector in
  indent ++ connector ++ node_name item.

(** The loop over the items, which fills the list [tree]. *)
Fixpoint tree_lines (indent : pystr) (items : list entry) : result (list pystr) :=
  match items with
  | [] => Ok []
  | (item, below) :: rest =>
      let is_last := is_nil rest in
      let line := item_line indent is_last item in
      sub <- (if node_is_dir item
              then s <- below (indent ++ (if is_last then last_extension
                                          else mid_extension)) ;;
                   Ok [s]
              else Ok []) ;;
      more <- tree_lines indent rest ;;
      Ok (line :: sub ++ more)
  end.

(** The children that are drawn, in the order of the drawing. *)
Definition visible_items {T} (root : Path) (all : list (node * T))
  : list (node * T) :=
  sorted (fun a b => path_lt (child root (node_name (fst a)))
                             (child root (node_name (fst b))))
         (filter (fun e => negb (str_in (node_name (fst e)) EXCLUSION_PATTERNS))
                 all).

Definition tree_body (n : node) (root : Path) (indent : pystr) (kids : list entry)
  : result pystr :=
  all <- listing n root kids ;;
  tree <- tree_lines indent (visible_items root all) ;;
  Ok (join nl tree).

Fixpoint tree_of (n : node) (root : Path) : pystr -> result pystr :=
  fun indent =>
    tree_body n root indent
      match n with
      | File _ _ _ => []
      | Dir _ _ cs => map (fun c => (c, tree_of c (child root (node_name c)))) cs
      end.

Definition generate_directory_tree (fs : filesystem) (root_path : pystr)
  (indent : pystr) : result pystr :=
  let root := Path_of root_path in
  match resolve fs root with
  | None => Raise (mkExn FileNotFoundError (str_of_path root))
  | Some n => tree_of n root indent
  end.

Definition truncation_marker : pystr := nl ++ py "... [Content Truncated] ...".

(** The body of the loop of get_file_summaries, for one path of the
    walk.  ValueError of [relative_to] would be caught with the rest. *)
Definition summary_step (fs : filesystem) (root : Path) (max_chars : Z)
  (summaries : list FileSummary) (file_path : Path) : list FileSummary :=
  if is_dir fs file_path
     || existsb (fun part => str_in part EXCLUSION_PATTERNS) (parts file_path)
  then summaries
  else if str_in (suffix file_path) SUPPORTED_EXTENSIONS then
    match read_text fs file_path UTF8 false with
    | Raise _ => summaries
    | Ok text =>
        let text :=
          if (Z.of_nat (length text) >? max_chars)%Z
          then slice_to text max_chars ++ truncation_marker
          else text in
        match relative_to file_path root with
        | None => summaries
        | Some rel_path =>
            summaries ++ [mkFileSummary (str_of_path rel_path) text]
        end
    end
  else summaries.

Definition get_file_summaries (fs : filesystem) (root_path : pystr) (max_chars : Z)
  : list FileSummary :=
  let root := Path_of root_path in
  fold_left (summary_step fs root max_chars) (rglob_star fs root) [].

(** agents.py *)
Record READMEAgent := mkAgent {
  api_key : pystr;           (* held by the client *)
  project_path : pystr;
  max_chars_per_file : Z
}.

Definition missing_key_error : exn :=
  mkExn ValueError
    (py "GEMINI_API_KEY environment variable not set. Please set it in your terminal.").

(** READMEAgent.__init__ *)
Definition init (w : world) (project_path : pystr) (max_chars_per_file : Z)
  : result READMEAgent :=
  match GEMINI_API_KEY w with
  | Some (c :: k) => Ok (mkAgent (c :: k) project_path max_chars_per_file)
  | _ => Raise missing_key_error
  end.

Definition fence : pystr := py "```".

(** READMEAgent._get_context *)
Definition get_context (fs : filesystem) (self : READMEAgent) : result pystr :=
  tree <- generate_directory_tree fs (project_path self) [] ;;
  let summaries := get_file_summaries fs (project_path self) (max_chars_per_file self) in
  let context_parts :=
    [py "# Project Directory Tree"; fence; tree; fence; nl ++ py "# File Contents"] in
  let context_parts :=
    fold_left (fun acc s =>
                 acc ++ [py "## File: " ++ relative_path s;
                         fence ++ nl ++ content s ++ nl ++ fence])
              summaries context_parts in
  Ok (join nl context_parts).

Definition dry_run_message : pystr :=
  py "--- DRY RUN COMPLETE ---" ++ nl
  ++ py "Review the gathered context above. No LLM was called.".

Definition generation_prompt (context : pystr) : pystr :=
  py "Act as a professional software engineer. Based on the following "
  ++ py "project tree and file contents, generate a high-quality, "
  ++ py "comprehensive README.md in Markdown format. Include installation, "
  ++ py "usage, and a tech stack section." ++ nl ++ nl
  ++ context.

Definition generation_error (e : exn) : pystr :=
  py "An error occurred while generating the README: " ++ exn_text e.

(** READMEAgent.generate *)
Definition generate (w : world) (self : READMEAgent) (dry_run : bool) : M pystr :=
  context <~ lift (get_context (disk w) self) ;;
  if dry_run then ret dry_run_message
  else
    try_except
      (emit (Printed (py "Respecting API Quota: Waiting 12s cooldown...")) ;;;
       emit (Slept 12) ;;;
       let prompt := generation_prompt context in
       response <~ generate_content w (mkRequest MODEL_NAME [prompt]) ;;
       lift (response_text response))
      (fun e => ret (generation_error e)).

End SrcApp.

(* ================================================================== *)
(** ** src/app/__main__.py *)

(** The namespace that [parse_args] returns. *)
Record args := mkArgs {
  directory_path : pystr;
  dry_run : bool;
  max_chars : Z
}.

(** Which package [from app.agents import READMEAgent] finds. *)
Inductive package := app_package | src_app_package.

(** [agent = READMEAgent(...); result = agent.generate(...)] *)
Definition make_and_generate `{StrLower} (pkg : package) (w : world) (a : args)
  : M pystr :=
  match pkg with
  | app_package =>
      App.generate w (App.init w (directory_path a) (max_chars a)) (dry_run a)
  | src_app_package =>
      agent <~ lift (SrcApp.init w (directory_path a) (max_chars a)) ;;
      SrcApp.generate w agent (dry_run a)
  end.

(** A finished process: what it did and its exit status. *)
Record process := mkProcess {
  events : list event;
  exit_status : Z
}.

Definition printed (tr : list event) : list pystr :=
  flat_map (fun e => match e with Printed s => [s] | _ => [] end) tr.

(** main, from the namespace on. *)
Definition main `{StrLower} (pkg : package) (w : world) (a : args) : process :=
  let project_path := directory_path a in
  if negb (os_path_exists (disk w) project_path) then
    mkProcess
      [Printed (py "Error: Directory '" ++ project_path ++ py "' does not exist.")]
      1
  else if negb (os_path_isdir (disk w) project_path) then
    mkProcess
      [Printed (py "Error: Path '" ++ project_path ++ py "' is not a directory.")]
      1
  else
    match (result <~ make_and_generate pkg w a ;; emit (Printed result)) with
    | (tr, Ok _) => mkProcess tr 0
    | (tr, Raise e) =>
        mkProcess
          (tr ++ [Printed (py "An unexpected error occurred: " ++ exn_text e)])
          1
    end.













(* ================================================================== *)
(** ** Vocabulary of the statements *)

(** [below top rel p]: [p] is [top] followed by the components [rel]. *)
Definition below (top : Path) (rel : list pystr) (p : Path) : Prop :=
  p = mkPath (anchor top) (comps top ++ rel).

(** The test of the walk of src/app on a directory name. *)
Definition kept (d : pystr) : bool := negb (str_in d App.EXCLUSION_PATTERNS).

(** The paths that one reported directory adds to the list. *)
Definition listed (t : Path * list pystr * list pystr) : list Path :=
  let '(root, _, files) := t in
  flat_map (fun file =>
              if negb (str_in (suffix (child root file)) App.SUPPORTED_EXTENSIONS)
              then [] else [child root file]) files.

(** Induction on the tree of the file system. *)
Fixpoint node_ind' (P : node -> Prop)
  (HF : forall nm r1 r2, P (File nm r1 r2))
  (HD : forall nm l cs, Forall P cs -> P (Dir nm l cs))
  (n : node) : P n :=
  match n with
  | File nm r1 r2 => HF nm r1 r2
  | Dir nm l cs =>
      HD nm l cs
        ((fix all (cs : list node) : Forall P cs :=
            match cs with
            | [] => Forall_nil P
            | c :: cs' => Forall_cons c (node_ind' P HF HD c) (all cs')
            end) cs)
  end.

(** What a path of the walk must pass to be read in src/src. *)
Definition src_selected (fs : filesystem) (file_path : Path) : bool :=
  negb (is_dir fs file_path)
  && negb (existsb (fun part => str_in part SrcApp.EXCLUSION_PATTERNS)
                   (parts file_path))
  && str_in (suffix file_path) SrcApp.SUPPORTED_EXTENSIONS.

(** What src/app guarantees of a path returned by [list_files]: a
    supported extension, and no exclusion entry among the components
    that follow the root path. *)
Definition app_scan_ok (directory : pystr) (p : Path) : Prop :=
  str_in (suffix p) App.SUPPORTED_EXTENSIONS = true
  /\ exists rel,
       below (Path_of directory) rel p
       /\ forall part, In part rel -> str_in part App.EXCLUSION_PATTERNS = false.

(** What src/src guarantees of a summary: it is that of a path of the
    walk with a supported extension and no exclusion entry among all its
    components. *)
Definition src_scan_ok (fs : filesystem) (root_path : pystr)
  (s : SrcApp.FileSummary) : Prop :=
  exists file_path rel,
    In file_path (rglob_star fs (Path_of root_path))
    /\ below (Path_of root_path) rel file_path
    /\ SrcApp.relative_path s = str_of_path (mkPath [] rel)
    /\ str_in (suffix file_path) SrcApp.SUPPORTED_EXTENSIONS = true
    /\ forall part, In part (parts file_path) ->
                    str_in part SrcApp.EXCLUSION_PATTERNS = false.

(** [stored] is the first [M] characters of [text] followed by the
    marker. *)
Definition truncated (marker : pystr) (M : Z) (text stored : pystr) : Prop :=
  stored = firstn (Z.to_nat M) text ++ marker
  /\ (Z.of_nat (length stored) <= M + Z.of_nat (length marker))%Z
  /\ exists kept_text, stored = kept_text ++ marker.

(** The content stored for a text under a limit, over the limit and
    otherwise, with the slice as Python takes it. *)
Definition stored_content (marker : pystr) (M : Z) (text : pystr) : pystr :=
  if (Z.of_nat (length text) >? M)%Z then slice_to text M ++ marker else text.

(** [a] is not after [b] in the order of strings. *)
Definition str_le (a b : pystr) : Prop := str_compare a b <> Gt.

(** Directories before files, and within each group the lower-cased
    names in the order of strings. *)
Definition dirs_first_caseless `{StrLower} (a b : node) : Prop :=
  (node_is_dir a = true /\ node_is_dir b = false)
  \/ (node_is_dir a = node_is_dir b
      /\ str_le (lower (node_name a)) (lower (node_name b))).

(** The names as they are, in the order of strings, whatever the kind. *)
Definition by_name (a b : node) : Prop :=
  str_le (node_name a) (node_name b).

(** [text] holds the line of each of the nodes, in their order, each
    followed by what is drawn below it. *)
Inductive drawn_in_order (line : bool -> node -> pystr)
  : list node -> pystr -> Prop :=
| drawn_nil : drawn_in_order line [] []
| drawn_cons (e : node) (rest : list node) (sub more : pystr) :
    drawn_in_order line rest more ->
    drawn_in_order line (e :: rest) (line (is_nil rest) e ++ sub ++ more).

(** The same for a list of lines, where the text below an item is one
    element. *)
Inductive listed_in_order (line : bool -> node -> pystr)
  : list node -> list pystr -> Prop :=
| listed_nil : listed_in_order line [] []
| listed_cons (e : node) (rest : list node) (sub more : list pystr) :
    listed_in_order line rest more ->
    listed_in_order line (e :: rest) (line (is_nil rest) e :: sub ++ more).

(** The text that the dry run of src/app returns is a preview. *)
Definition is_preview (text : pystr) : Prop :=
  exists summaries context_str, text = App.dry_run_preview summaries context_str.

(** The message that generate gives for a failed remote call. *)
Definition failure_report (pkg : package) (e : exn) : pystr :=
  match pkg with
  | app_package => App.generation_error e
  | src_app_package => SrcApp.generation_error e
  end.

(** A directory that cannot be listed lies in [n], at [n] itself or
    below it through directories that src/src does not exclude. *)
Inductive holds_locked : node -> Prop :=
| locked_here (nm : pystr) (cs : list node) : holds_locked (Dir nm false cs)
| locked_below (nm : pystr) (cs : list node) (c : node) :
    In c cs ->
    str_in (node_name c) SrcApp.EXCLUSION_PATTERNS = false ->
    holds_locked c ->
    holds_locked (Dir nm true cs).

(** The same tree with every directory that cannot be listed replaced
    by an empty one. *)
Fixpoint emptied (n : node) : node :=
  match n with
  | File nm r1 r2 => File nm r1 r2
  | Dir nm false _ => Dir nm true []
  | Dir nm true cs => Dir nm true (map emptied cs)
  end.

(* ================================================================== *)
(** ** Sample worlds *)

Definition text_file (name contents : string) : node :=
  File (py name) (Ok (list_byte_of_string contents))
       (Ok (list_byte_of_string contents)).

(** A root directory whose own name is an exclusion entry. *)
Definition fs_build : filesystem :=
  mkFs (Dir [] true [Dir (py "build") true [text_file "a.py" "ab"]]) [].

Definition build_a_py : Path := mkPath [] [py "build"; py "a.py"].

(** The project of the scenario of the spec: a source file, an image,
    a dependency directory. *)
Definition fs_project : filesystem :=
  mkFs (Dir [] true
          [Dir (py "proj") true
             [text_file "a.py" "print('hello')";
              File (py "b.png") (Ok [x89; x50; x4e; x47]) (Ok [x89; x50; x4e; x47]);
              Dir (py "node_modules") true [text_file "x.js" "x"]]])
       [].

Definition proj_a_py : Path := mkPath [] [py "proj"; py "a.py"].

(** A source file of two characters, and an agent of src/app with a
    negative limit, as [--max-chars -1] sets it. *)
Definition fs_two_chars : filesystem :=
  mkFs (Dir [] true [Dir (py "proj") true [text_file "a.py" "ab"]]) [].

Definition agent_minus_one : App.READMEAgent :=
  App.mkAgent (py "proj") (-1) None.

Definition agent_limit_three : App.READMEAgent :=
  App.mkAgent (py "proj") 3 None.

Definition agent_default : App.READMEAgent :=
  App.mkAgent (py "proj") 5000 None.

(** A file next to a directory of a later name. *)
Definition fs_file_and_dir : filesystem :=
  mkFs (Dir [] true
          [Dir (py "proj") true [text_file "a.py" "x"; Dir (py "b") true []]])
       [].

Definition proj_file_a : node := text_file "a.py" "x".
Definition proj_dir_b : node := Dir (py "b") true [].

(** A project without any file, and a run without the credential. *)
Definition fs_empty_project : filesystem :=
  mkFs (Dir [] true [Dir (py "proj") true []]) [].

Definition silent_endpoint (r : request) : result response :=
  Ok (mkResponse (Ok (py "# README"))).

Definition w_empty_no_key : world :=
  mkWorld fs_empty_project None silent_endpoint.

(** The project of the scenario, without and with the credential, and
    with an endpoint that refuses every request. *)
Definition w_project_no_key : world :=
  mkWorld fs_project None silent_endpoint.

Definition quota_error : exn := mkExn OtherException (py "429 quota exceeded").

Definition w_project_quota : world :=
  mkWorld fs_project (Some (py "key")) (fun _ => Raise quota_error).

Definition args_generate : args := mkArgs (py "proj") false 5000.

(** The requests that the two packages send for the project of the
    scenario. *)
Definition project_request_app : request :=
  let self := App.init w_project_quota (py "proj") 5000 in
  let tree :=
    match App.generate_directory_tree fs_project (py "proj") with
    | Ok t => t
    | Raise _ => []
    end in
  mkRequest (py "gemini-2.0-flash")
    [App.construct_system_prompt;
     py "Here is the codebase information:" ++ nl ++ nl
     ++ App.build_context tree (App.get_file_summaries fs_project self)].

Definition project_request_src : request :=
  let context :=
    match SrcApp.get_context fs_project
            (SrcApp.mkAgent (py "key") (py "proj") 5000) with
    | Ok c => c
    | Raise _ => []
    end in
  mkRequest SrcApp.MODEL_NAME [SrcApp.generation_prompt context].

(** A project with a directory that cannot be listed. *)
Definition locked_dir : node :=
  Dir (py "locked") false [text_file "secret.py" "x = 1"].

Definition fs_locked : filesystem :=
  mkFs (Dir [] true [Dir (py "proj") true [locked_dir; text_file "z.py" "z = 0"]])
       [].

Definition w_locked : world :=
  mkWorld fs_locked (Some (py "key")) silent_endpoint.




(** A project with one file in latin-1: the single byte E9. *)
Definition fs_latin1 : filesystem :=
  mkFs (Dir [] true
          [Dir (py "proj") true [File (py "a.txt") (Ok [xe9]) (Ok [xe9])]])
       [].

Definition proj_a_txt : Path := mkPath [] [py "proj"; py "a.txt"].

(* ================================================================== *)
(** ** Vocabulary of the further properties *)

(** [walk_dir keep n rel kids]: from the directory [n] the components
    [rel] lead, through listable directories whose names pass [keep],
    to a listable directory with the children [kids]. *)
Inductive walk_dir (keep : pystr -> bool) : node -> list pystr -> list node -> Prop :=
| walk_here (nm : pystr) (cs : list node) : walk_dir keep (Dir nm true cs) [] cs
| walk_step (nm : pystr) (cs : list node) (c : node) (rel : list pystr)
    (kids : list node) :
    In c cs ->
    node_is_dir c = true ->
    keep (node_name c) = true ->
    walk_dir keep c rel kids ->
    walk_dir keep (Dir nm true cs) (node_name c :: rel) kids.

(** A scanned file of src/app has a text to summarise. *)
Definition has_text (fs : filesystem) (file_path : Path) : bool :=
  match App.read_file_content fs file_path with
  | Some (_ :: _) => true
  | _ => false
  end.

(** The path of a scanned file as its summary shows it. *)
Definition shown_path (self : App.READMEAgent) (file_path : Path) : pystr :=
  match relative_to file_path (Path_of (App.project_path self)) with
  | Some r => str_of_path r
  | None => name_of file_path
  end.

(** One of the parts of a path is an exclusion entry. *)
Definition has_excluded_part (excluded : list pystr) (p : Path) : Prop :=
  exists part, In part (parts p) /\ In part excluded.

(** The number of sleeps in a trace, and their lengths. *)
Definition sleeps (tr : list event) : list nat :=
  flat_map (fun e => match e with Slept n => [n] | _ => [] end) tr.

(** A project below a directory named like an exclusion entry. *)
Definition fs_under_build : filesystem :=
  mkFs (Dir [] true
          [Dir (py "build") true
             [Dir (py "proj") true
                [text_file "a.py" "ab"; Dir (py "sub") true [text_file "b.md" "# b"]]]])
       [].

(** A file named like a text whose bytes are those of an image. *)
Definition fs_binary_txt : filesystem :=
  mkFs (Dir [] true
          [Dir (py "proj") true
             [File (py "logo.txt") (Ok [x89; x50; x4e; x47]) (Ok [x89; x50; x4e; x47])]])
       [].

Definition proj_logo_txt : Path := mkPath [] [py "proj"; py "logo.txt"].

(** The project of the scenario with the credential and an endpoint
    that answers. *)
Definition w_project_ok : world :=
  mkWorld fs_project (Some (py "key")) silent_endpoint.

(** [x] occurs in [y]. *)
Definition occurs_in (y x : pystr) : Prop := exists pre post, y = pre ++ x ++ post.

(** The key by which src/app sorts an entry, and the one of src/src. *)
Definition sort_key `{StrLower} (c : node) : bool * pystr :=
  (node_is_file c, lower (node_name c)).

(** [reordered n n']: [n'] is [n] with the children of its directories
    enumerated in another order, at any depth. *)
Unset Elimination Schemes.
Inductive reordered : node -> node -> Prop :=
| reordered_file (nm : pystr) (r1 r2 : result (list byte)) :
    reordered (File nm r1 r2) (File nm r1 r2)
| reordered_dir (nm : pystr) (l : bool) (cs mid cs' : list node) :
    Forall2 reordered cs mid ->
    Permutation mid cs' ->
    reordered (Dir nm l cs) (Dir nm l cs').
Set Elimination Schemes.

(** In every directory of [n], no two children have the same value of
    [key]. *)
Fixpoint distinct_by {K : Type} (key : node -> K) (n : node) : Prop :=
  match n with
  | File _ _ _ => True
  | Dir _ _ cs =>
      NoDup (map key cs)
      /\ (fix all (cs : list node) : Prop :=
            match cs with
            | [] => True
            | c :: cs' => distinct_by key c /\ all cs'
            end) cs
  end.

(** The same directory listed in two orders. *)
Definition dir_ab : node :=
  Dir (py "proj") true [text_file "b.py" "b"; Dir (py "A") true []; text_file "a.py" "a"].

Definition dir_ba : node :=
  Dir (py "proj") true [text_file "a.py" "a"; text_file "b.py" "b"; Dir (py "A") true []].

(* ================================================================== *)
(** * Properties *)

(** ** Strings, lists and loops *)

Lemma str_eqb_eq (a b : pystr) : str_eqb a b = true <-> a = b.
Proof.
  revert b; induction a as [|x a IH]; intros [|y b]; simpl;
    try (split; [discriminate | discriminate]); try tauto.
  rewrite andb_true_iff, N.eqb_eq, IH. split.
  - intros [-> ->]; reflexivity.
  - intros E; injection E; auto.
Qed.

Lemma str_eqb_refl (a : pystr) : str_eqb a a = true.
Proof. apply str_eqb_eq; reflexivity. Qed.

Lemma str_in_In (x : pystr) (l : list pystr) : str_in x l = true <-> In x l.
Proof.
  unfold str_in. rewrite existsb_exists. split.
  - intros (y & Hy & E). apply str_eqb_eq in E. subst; assumption.
  - intros H. exists x. split; [assumption | apply str_eqb_refl].
Qed.

Lemma str_in_false (x : pystr) (l : list pystr) : str_in x l = false <-> ~ In x l.
Proof.
  rewrite <- str_in_In. destruct (str_in x l); split; congruence.
Qed.

(** A loop that appends to an accumulator is a [flat_map]. *)
Lemma fold_left_appends {A B} (f : list B -> A -> list B) (g : A -> list B) :
  (forall acc x, f acc x = acc ++ g x) ->
  forall l acc, fold_left f l acc = acc ++ flat_map g l.
Proof.
  intros Hf l; induction l as [|x l IH]; intros acc; simpl.
  - now rewrite app_nil_r.
  - rewrite IH, Hf, <- app_assoc. reflexivity.
Qed.

Lemma last_snoc {A} (l : list A) (x d : A) : last (l ++ [x]) d = x.
Proof. apply last_last. Qed.

Lemma name_of_child (p : Path) (nm : pystr) : name_of (child p nm) = nm.
Proof. unfold name_of, child; simpl. apply last_snoc. Qed.

Lemma suffix_child (p : Path) (nm : pystr) : suffix (child p nm) = suffix_of_name nm.
Proof. unfold suffix. now rewrite name_of_child. Qed.

(** ** The scan *)

Lemma below_nil (top : Path) : below top [] top.
Proof. unfold below. rewrite app_nil_r. now destruct top. Qed.

Lemma below_child (top : Path) (nm : pystr) (rel : list pystr) (p : Path) :
  below (child top nm) rel p -> below top (nm :: rel) p.
Proof. unfold below, child; simpl. now rewrite <- app_assoc. Qed.

Lemma child_below (top : Path) (rel : list pystr) (p : Path) (nm : pystr) :
  below top rel p -> below top (rel ++ [nm]) (child p nm).
Proof. unfold below, child. intros ->; simpl. now rewrite app_assoc. Qed.

(** Every directory that the walk reports is reached from the top
    through kept names only. *)
Lemma os_walk_roots (keep : pystr -> bool) (n : node) :
  forall top root dirs files,
    In (root, dirs, files) (os_walk keep n top) ->
    exists rel, below top rel root /\ Forall (fun d => keep d = true) rel.
Proof.
  induction n as [nm r1 r2 | nm l cs IH] using node_ind';
    intros top root dirs files Hin.
  - contradiction.
  - destruct l; simpl in Hin; [| contradiction].
    destruct Hin as [E | Hin].
    + injection E as <- _ _. exists []. split; [apply below_nil | constructor].
    + apply in_flat_map in Hin. destruct Hin as (c & Hc & Hin).
      destruct (node_is_dir c && keep (node_name c)) eqn:K; [| contradiction].
      apply andb_true_iff in K. destruct K as [_ K].
      rewrite Forall_forall in IH.
      destruct (IH c Hc _ _ _ _ Hin) as (rel & Hb & Hk).
      exists (node_name c :: rel). split.
      * now apply below_child.
      * now constructor.
Qed.

Lemma iterate_directories_below (n : node) :
  forall top d dn,
    In (d, dn) (iterate_directories n top) -> exists rel, below top rel d.
Proof.
  induction n as [nm r1 r2 | nm l cs IH] using node_ind'; intros top d dn Hin.
  - contradiction.
  - assert (Hhead : (top, Dir nm l cs) = (d, dn) -> exists rel, below top rel d).
    { intros E. injection E as <- _. exists []. apply below_nil. }
    destruct l; simpl in Hin.
    + destruct Hin as [E | Hin]; [auto |].
      apply in_flat_map in Hin. destruct Hin as (c & Hc & Hin).
      destruct (node_is_dir c); [| contradiction].
      rewrite Forall_forall in IH.
      destruct (IH c Hc _ _ _ Hin) as (rel & Hb).
      exists (node_name c :: rel). now apply below_child.
    + destruct Hin as [E | []]; auto.
Qed.

(** What [rglob] yields lies strictly below the root. *)
Lemma rglob_star_below (fs : filesystem) (root p : Path) :
  In p (rglob_star fs root) -> exists rel, rel <> [] /\ below root rel p.
Proof.
  unfold rglob_star. destruct (resolve fs root) as [[nm r1 r2 | nm l cs] |];
    try contradiction.
  intros Hin. apply in_flat_map in Hin. destruct Hin as ([d dn] & Hd & Hin).
  destruct (iterate_directories_below _ _ _ _ Hd) as (rel & Hb).
  destruct dn as [| nm' [|] kids]; try contradiction.
  apply in_map_iff in Hin. destruct Hin as (c & <- & _).
  exists (rel ++ [node_name c]). split.
  - destruct rel; discriminate.
  - now apply child_below.
Qed.

Lemma strip_prefix_app (pre rel : list pystr) :
  strip_prefix pre (pre ++ rel) = Some rel.
Proof.
  induction pre as [|x pre IH]; simpl; [reflexivity |].
  now rewrite str_eqb_refl.
Qed.

Lemma relative_to_below (base p : Path) (rel : list pystr) :
  below base rel p -> relative_to p base = Some (mkPath [] rel).
Proof.
  unfold below, relative_to. intros ->; simpl.
  now rewrite str_eqb_refl, strip_prefix_app.
Qed.

Lemma list_files_walk (fs : filesystem) (directory : pystr) (p : Path) :
  In p (App.list_files fs directory) ->
  exists n t,
    resolve fs (Path_of directory) = Some n
    /\ In t (os_walk kept n (Path_of directory))
    /\ In p (listed t).
Proof.
  unfold App.list_files.
  destruct (negb (exists_ fs (Path_of directory))); [contradiction |].
  destruct (negb (is_dir fs (Path_of directory))); [contradiction |].
  destruct (resolve fs (Path_of directory)) as [n |]; [| contradiction].
  rewrite (fold_left_appends _ listed).
  - simpl. intros Hin. apply in_flat_map in Hin.
    destruct Hin as (t & Ht & Hin). exists n, t. auto.
  - intros acc [[root dirs] files]. unfold listed.
    apply fold_left_appends. intros acc' file.
    destruct (negb (str_in (suffix (child root file)) App.SUPPORTED_EXTENSIONS));
      [now rewrite app_nil_r | reflexivity].
Qed.

(** No entry of the exclusion set of src/app carries a supported
    extension. *)
Lemma excluded_name_unsupported (nm : pystr) :
  In nm App.EXCLUSION_PATTERNS ->
  str_in (suffix_of_name nm) App.SUPPORTED_EXTENSIONS = false.
Proof.
  unfold App.EXCLUSION_PATTERNS. simpl In.
  intros H; repeat (destruct H as [<- | H]; [vm_compute; reflexivity |]).
  contradiction.
Qed.

Lemma list_files_filters (fs : filesystem) (directory : pystr) (p : Path) :
  In p (App.list_files fs directory) ->
  str_in (suffix p) App.SUPPORTED_EXTENSIONS = true
  /\ exists rel,
       below (Path_of directory) rel p
       /\ forall part, In part rel -> str_in part App.EXCLUSION_PATTERNS = false.
Proof.
  intros Hin. apply list_files_walk in Hin.
  destruct Hin as (n & [[root dirs] files] & _ & Ht & Hp).
  unfold listed in Hp. apply in_flat_map in Hp. destruct Hp as (file & _ & Hp).
  destruct (str_in (suffix (child root file)) App.SUPPORTED_EXTENSIONS) eqn:S;
    simpl in Hp; [| contradiction].
  destruct Hp as [<- | []]. split; [assumption |].
  destruct (os_walk_roots _ _ _ _ _ _ Ht) as (rel & Hb & Hk).
  exists (rel ++ [file]). split; [now apply child_below |].
  intros part Hpart. apply in_app_or in Hpart. destruct Hpart as [Hpart | [<- | []]].
  - rewrite Forall_forall in Hk. specialize (Hk _ Hpart). unfold kept in Hk.
    now apply negb_true_iff in Hk.
  - apply str_in_false. intros Hex. apply excluded_name_unsupported in Hex.
    rewrite suffix_child in S. congruence.
Qed.

Lemma src_summary_step_appends (fs : filesystem) (root : Path) (max_chars : Z)
  (acc : list SrcApp.FileSummary) (file_path : Path) :
  SrcApp.summary_step fs root max_chars acc file_path
  = acc ++ SrcApp.summary_step fs root max_chars [] file_path.
Proof.
  unfold SrcApp.summary_step.
  destruct (is_dir fs file_path || _); [now rewrite app_nil_r |].
  destruct (str_in (suffix file_path) SrcApp.SUPPORTED_EXTENSIONS);
    [| now rewrite app_nil_r].
  destruct (read_text fs file_path UTF8 false); [| now rewrite app_nil_r].
  destruct (relative_to file_path root); [reflexivity |].
  now rewrite app_nil_r.
Qed.

(** The summaries of src/src, path by path. *)
Lemma src_summaries_flat_map (fs : filesystem) (root_path : pystr) (max_chars : Z) :
  SrcApp.get_file_summaries fs root_path max_chars
  = flat_map (SrcApp.summary_step fs (Path_of root_path) max_chars [])
             (rglob_star fs (Path_of root_path)).
Proof.
  unfold SrcApp.get_file_summaries.
  now rewrite (fold_left_appends _ _ (src_summary_step_appends _ _ _)).
Qed.

(** One step of src/src, case by case. *)
Lemma src_summary_step_cases (fs : filesystem) (root : Path) (max_chars : Z)
  (file_path : Path) (s : SrcApp.FileSummary) :
  In s (SrcApp.summary_step fs root max_chars [] file_path) ->
  exists text rel_path,
    src_selected fs file_path = true
    /\ read_text fs file_path UTF8 false = Ok text
    /\ relative_to file_path root = Some rel_path
    /\ s = SrcApp.mkFileSummary (str_of_path rel_path)
             (if (Z.of_nat (length text) >? max_chars)%Z
              then slice_to text max_chars ++ SrcApp.truncation_marker
              else text).
Proof.
  unfold SrcApp.summary_step, src_selected.
  destruct (is_dir fs file_path); cbn [orb negb andb]; [contradiction |].
  destruct (existsb _ (parts file_path)); cbn [negb andb]; [contradiction |].
  destruct (str_in (suffix file_path) SrcApp.SUPPORTED_EXTENSIONS);
    [| contradiction].
  destruct (read_text fs file_path UTF8 false) as [text |]; [| contradiction].
  destruct (relative_to file_path root) as [rel_path |]; [| contradiction].
  intros [<- | []]. exists text, rel_path. auto.
Qed.

Lemma src_summaries_filters (fs : filesystem) (root_path : pystr) (max_chars : Z)
  (s : SrcApp.FileSummary) :
  In s (SrcApp.get_file_summaries fs root_path max_chars) ->
  exists file_path rel,
    In file_path (rglob_star fs (Path_of root_path))
    /\ below (Path_of root_path) rel file_path
    /\ SrcApp.relative_path s = str_of_path (mkPath [] rel)
    /\ str_in (suffix file_path) SrcApp.SUPPORTED_EXTENSIONS = true
    /\ forall part, In part (parts file_path) ->
                    str_in part SrcApp.EXCLUSION_PATTERNS = false.
Proof.
  rewrite src_summaries_flat_map. intros Hin. apply in_flat_map in Hin.
  destruct Hin as (file_path & Hp & Hin).
  destruct (rglob_star_below _ _ _ Hp) as (rel & _ & Hb).
  exists file_path, rel.
  apply src_summary_step_cases in Hin.
  destruct Hin as (text & rel_path & Hsel & _ & Hrel & ->).
  rewrite (relative_to_below _ _ _ Hb) in Hrel. injection Hrel as <-.
  unfold src_selected in Hsel. apply andb_true_iff in Hsel.
  destruct Hsel as [Hsel S]. apply andb_true_iff in Hsel. destruct Hsel as [_ X].
  apply negb_true_iff in X.
  repeat split; auto.
  intros part Hpart. destruct (str_in part SrcApp.EXCLUSION_PATTERNS) eqn:E; auto.
  assert (existsb (fun part => str_in part SrcApp.EXCLUSION_PATTERNS)
                  (parts file_path) = true)
    by (apply existsb_exists; eauto).
  congruence.
Qed.

(** C1, as stated, fails in src/app: scanning the directory "build"
    returns "build/a.py", whose first component is an exclusion entry. *)
Lemma C1_root_component_counterexample :
  In build_a_py (App.list_files fs_build (py "build"))
  /\ In (py "build") (parts build_a_py)
  /\ str_in (py "build") App.EXCLUSION_PATTERNS = true.
Proof. vm_compute. auto. Qed.

(** C1 (amended): the scan never returns a path whose extension is
    outside the supported set.  In src/app (list_files) no component
    that follows the root path in a returned path is an exclusion entry;
    in src/src (get_file_summaries) no component of a summarised path,
    those of the root included, is an exclusion entry. *)
Theorem C1_scan_filters :
  (forall fs directory p,
      In p (App.list_files fs directory) -> app_scan_ok directory p)
  /\
  (forall fs root_path max_chars s,
      In s (SrcApp.get_file_summaries fs root_path max_chars) ->
      src_scan_ok fs root_path s).
Proof.
  split.
  - apply list_files_filters.
  - apply src_summaries_filters.
Qed.

Lemma C1_scan_filters_witness :
  (In proj_a_py (App.list_files fs_project (py "proj"))
   /\ app_scan_ok (py "proj") proj_a_py)
  /\ (In (SrcApp.mkFileSummary (py "a.py") (py "print('hello')"))
         (SrcApp.get_file_summaries fs_project (py "proj") 5000)
      /\ src_scan_ok fs_project (py "proj")
           (SrcApp.mkFileSummary (py "a.py") (py "print('hello')"))).
Proof.
  split; split.
  - vm_compute; auto.
  - apply (proj1 C1_scan_filters fs_project). vm_compute; auto.
  - vm_compute; auto.
  - apply (proj2 C1_scan_filters fs_project (py "proj") 5000%Z). vm_compute; auto.
Defined.

(** ** Truncation *)

Lemma slice_to_nonneg (text : pystr) (M : Z) :
  (0 <= M)%Z -> slice_to text M = firstn (Z.to_nat M) text.
Proof.
  intros H. unfold slice_to. destruct (M <? 0)%Z eqn:E; [| reflexivity].
  apply Z.ltb_lt in E. lia.
Qed.

Lemma stored_content_over (marker : pystr) (M : Z) (text : pystr) :
  (0 <= M)%Z -> (Z.of_nat (length text) > M)%Z ->
  truncated marker M text (stored_content marker M text).
Proof.
  intros H0 HL. unfold stored_content.
  replace (Z.of_nat (length text) >? M)%Z with true
    by (symmetry; apply Z.gtb_lt; lia).
  rewrite slice_to_nonneg by assumption.
  repeat split.
  - rewrite length_app.
    pose proof (firstn_le_length (Z.to_nat M) text). lia.
  - eexists; reflexivity.
Qed.

Lemma stored_content_within (marker : pystr) (M : Z) (text : pystr) :
  (Z.of_nat (length text) <= M)%Z -> stored_content marker M text = text.
Proof.
  intros HL. unfold stored_content.
  replace (Z.of_nat (length text) >? M)%Z with false; [reflexivity |].
  symmetry. rewrite Z.gtb_ltb. apply Z.ltb_ge. lia.
Qed.

Lemma app_summary_step_appends (fs : filesystem) (self : App.READMEAgent)
  (acc : list App.FileSummary) (file_path : Path) :
  App.summary_step fs self acc file_path
  = acc ++ App.summary_step fs self [] file_path.
Proof.
  unfold App.summary_step.
  destruct (App.read_file_content fs file_path) as [[| c cs] |];
    try (now rewrite app_nil_r).
  reflexivity.
Qed.

(** The summaries of src/app, file by file. *)
Lemma app_summaries_flat_map (fs : filesystem) (self : App.READMEAgent) :
  App.get_file_summaries fs self
  = flat_map (App.summary_step fs self [])
             (App.list_files fs (App.project_path self)).
Proof.
  unfold App.get_file_summaries.
  now rewrite (fold_left_appends _ _ (app_summary_step_appends _ _)).
Qed.

(** One step of src/app, case by case. *)
Lemma app_summary_step_cases (fs : filesystem) (self : App.READMEAgent)
  (file_path : Path) (s : App.FileSummary) :
  In s (App.summary_step fs self [] file_path) ->
  exists text,
    App.read_file_content fs file_path = Some text
    /\ text <> []
    /\ App.summary_step fs self [] file_path = [s]
    /\ App.extension s = suffix file_path
    /\ App.content s
       = stored_content App.truncation_marker (App.max_chars_per_file self) text.
Proof.
  unfold App.summary_step.
  destruct (App.read_file_content fs file_path) as [[| c cs] |];
    try contradiction.
  intros [<- | []]. exists (c :: cs). repeat split. discriminate.
Qed.

Lemma app_summary_step_read (fs : filesystem) (self : App.READMEAgent)
  (file_path : Path) (text : pystr) :
  App.read_file_content fs file_path = Some text -> text <> [] ->
  exists s,
    App.summary_step fs self [] file_path = [s]
    /\ App.content s
       = stored_content App.truncation_marker (App.max_chars_per_file self) text.
Proof.
  intros Hr Hne. unfold App.summary_step. rewrite Hr.
  destruct text as [| c cs]; [congruence |].
  eexists; split; reflexivity.
Qed.

Lemma src_summary_step_read (fs : filesystem) (root_path : pystr) (max_chars : Z)
  (file_path : Path) (text : pystr) :
  In file_path (rglob_star fs (Path_of root_path)) ->
  src_selected fs file_path = true ->
  read_text fs file_path UTF8 false = Ok text ->
  exists s,
    SrcApp.summary_step fs (Path_of root_path) max_chars [] file_path = [s]
    /\ SrcApp.content s = stored_content SrcApp.truncation_marker max_chars text.
Proof.
  intros Hin Hsel Hr.
  destruct (rglob_star_below _ _ _ Hin) as (rel & _ & Hb).
  unfold src_selected in Hsel.
  apply andb_true_iff in Hsel. destruct Hsel as [Hsel S].
  apply andb_true_iff in Hsel. destruct Hsel as [D X].
  apply negb_true_iff in D, X.
  unfold SrcApp.summary_step. rewrite D, X, S, Hr, (relative_to_below _ _ _ Hb).
  eexists; split; reflexivity.
Qed.

(** C2, as stated, fails for a negative limit: with [max_chars = -1] a
    text of two characters is over the limit, one character of it is
    kept, and the stored content is longer than the limit plus the
    marker. *)
Lemma C2_negative_limit_counterexample :
  exists s,
    App.get_file_summaries fs_two_chars agent_minus_one = [s]
    /\ App.read_file_content fs_two_chars (mkPath [] [py "proj"; py "a.py"])
       = Some (py "ab")
    /\ (Z.of_nat (length (py "ab")) > App.max_chars_per_file agent_minus_one)%Z
    /\ App.content s = py "a" ++ App.truncation_marker
    /\ ~ (Z.of_nat (length (App.content s))
          <= App.max_chars_per_file agent_minus_one
             + Z.of_nat (length App.truncation_marker))%Z.
Proof.
  eexists. split; [vm_compute; reflexivity |].
  repeat split; try (vm_compute; congruence).
Qed.

(** C2 (amended): for a limit [M >= 0], the content stored for a file
    whose text is longer than [M] is the first [M] characters of the
    text followed by the truncation marker, so it is no longer than [M]
    plus the marker and ends with it; and every stored content is that
    of a text that was read, cut and marked when longer than the limit
    and unchanged otherwise. *)
Theorem C2_truncation :
  (forall fs self file_path text,
      In file_path (App.list_files fs (App.project_path self)) ->
      App.read_file_content fs file_path = Some text ->
      (0 <= App.max_chars_per_file self)%Z ->
      (Z.of_nat (length text) > App.max_chars_per_file self)%Z ->
      exists s,
        In s (App.get_file_summaries fs self)
        /\ App.summary_step fs self [] file_path = [s]
        /\ truncated App.truncation_marker (App.max_chars_per_file self) text
                     (App.content s))
  /\
  (forall fs self s,
      In s (App.get_file_summaries fs self) ->
      exists file_path text,
        In file_path (App.list_files fs (App.project_path self))
        /\ App.read_file_content fs file_path = Some text
        /\ App.content s
           = if (Z.of_nat (length text) >? App.max_chars_per_file self)%Z
             then slice_to text (App.max_chars_per_file self)
                  ++ App.truncation_marker
             else text)
  /\
  (forall fs root_path max_chars file_path text,
      In file_path (rglob_star fs (Path_of root_path)) ->
      src_selected fs file_path = true ->
      read_text fs file_path UTF8 false = Ok text ->
      (0 <= max_chars)%Z ->
      (Z.of_nat (length text) > max_chars)%Z ->
      exists s,
        In s (SrcApp.get_file_summaries fs root_path max_chars)
        /\ SrcApp.summary_step fs (Path_of root_path) max_chars [] file_path = [s]
        /\ truncated SrcApp.truncation_marker max_chars text (SrcApp.content s))
  /\
  (forall fs root_path max_chars s,
      In s (SrcApp.get_file_summaries fs root_path max_chars) ->
      exists file_path text,
        In file_path (rglob_star fs (Path_of root_path))
        /\ read_text fs file_path UTF8 false = Ok text
        /\ SrcApp.content s
           = if (Z.of_nat (length text) >? max_chars)%Z
             then slice_to text max_chars ++ SrcApp.truncation_marker
             else text).
Proof.
  repeat split.
  - intros fs self file_path text Hin Hr H0 HL.
    assert (Hne : text <> []) by (intros ->; simpl in HL; lia).
    destruct (app_summary_step_read fs self _ _ Hr Hne) as (s & Hs & Hc).
    exists s. repeat split; auto.
    + rewrite app_summaries_flat_map. apply in_flat_map.
      exists file_path. split; [assumption |]. rewrite Hs. now left.
    + rewrite Hc. now apply stored_content_over.
    + rewrite Hc. now apply stored_content_over.
    + rewrite Hc. now apply stored_content_over.
  - intros fs self s Hin. rewrite app_summaries_flat_map in Hin.
    apply in_flat_map in Hin. destruct Hin as (file_path & Hp & Hin).
    apply app_summary_step_cases in Hin.
    destruct Hin as (text & Hr & _ & _ & _ & Hc).
    exists file_path, text. auto.
  - intros fs root_path max_chars file_path text Hin Hsel Hr H0 HL.
    destruct (src_summary_step_read fs root_path max_chars _ _ Hin Hsel Hr)
      as (s & Hs & Hc).
    exists s. repeat split; auto.
    + rewrite src_summaries_flat_map. apply in_flat_map.
      exists file_path. split; [assumption |]. rewrite Hs. now left.
    + rewrite Hc. now apply stored_content_over.
    + rewrite Hc. now apply stored_content_over.
    + rewrite Hc. now apply stored_content_over.
  - intros fs root_path max_chars s Hin. rewrite src_summaries_flat_map in Hin.
    apply in_flat_map in Hin. destruct Hin as (file_path & Hp & Hin).
    apply src_summary_step_cases in Hin.
    destruct Hin as (text & rel_path & _ & Hr & _ & ->).
    exists file_path, text. auto.
Qed.

Lemma C2_truncation_witness :
  (In proj_a_py (App.list_files fs_project (App.project_path agent_limit_three))
   /\ App.read_file_content fs_project proj_a_py = Some (py "print('hello')")
   /\ (0 <= App.max_chars_per_file agent_limit_three)%Z
   /\ (Z.of_nat (length (py "print('hello')"))
       > App.max_chars_per_file agent_limit_three)%Z)
  /\ (exists s,
         In s (App.get_file_summaries fs_project agent_limit_three)
         /\ App.summary_step fs_project agent_limit_three [] proj_a_py = [s]
         /\ truncated App.truncation_marker 3 (py "print('hello')")
                      (App.content s))
  /\ (exists s,
         In s (SrcApp.get_file_summaries fs_project (py "proj") 3)
         /\ SrcApp.summary_step fs_project (Path_of (py "proj")) 3 [] proj_a_py
            = [s]
         /\ truncated SrcApp.truncation_marker 3 (py "print('hello')")
                      (SrcApp.content s)).
Proof.
  split; [| split].
  - repeat split; try (vm_compute; auto; fail); vm_compute; congruence.
  - apply (proj1 C2_truncation fs_project agent_limit_three proj_a_py
                 (py "print('hello')")).
    + vm_compute; auto.
    + vm_compute; reflexivity.
    + vm_compute; congruence.
    + vm_compute; reflexivity.
  - apply (proj1 (proj2 (proj2 C2_truncation)) fs_project (py "proj") 3%Z
                 proj_a_py (py "print('hello')")).
    + vm_compute; auto.
    + vm_compute; reflexivity.
    + vm_compute; reflexivity.
    + vm_compute; congruence.
    + vm_compute; reflexivity.
Defined.

(** ** Sorting *)

Section SortedFacts.
Context {A : Type} (lt : A -> A -> bool).

Lemma insert_perm (x : A) (l : list A) : Permutation (insert lt x l) (x :: l).
Proof.
  induction l as [|y l IH]; simpl; [reflexivity |].
  destruct (lt y x); [| reflexivity].
  rewrite IH. apply perm_swap.
Qed.

Lemma sorted_perm (l : list A) : Permutation (sorted lt l) l.
Proof.
  induction l as [|x l IH]; simpl; [reflexivity |].
  rewrite insert_perm. now constructor.
Qed.

Hypothesis lt_asym : forall a b, lt a b = true -> lt b a = false.
Hypothesis le_trans :
  forall a b c, lt b a = false -> lt c b = false -> lt c a = false.

Let le (a b : A) : Prop := lt b a = false.

Lemma insert_sorted (x : A) (l : list A) :
  StronglySorted le l -> StronglySorted le (insert lt x l).
Proof.
  induction 1 as [| y l Hs IH Hy]; simpl.
  - repeat constructor.
  - destruct (lt y x) eqn:E.
    + constructor; [assumption |].
      eapply Permutation_Forall; [symmetry; apply insert_perm |].
      constructor; [now apply lt_asym | assumption].
    + constructor; [now constructor |].
      constructor; [exact E |].
      eapply Forall_impl; [| exact Hy].
      intros z Hz. unfold le in *. now apply (le_trans x y z).
Qed.

Lemma sorted_StronglySorted (l : list A) : StronglySorted le (sorted lt l).
Proof.
  induction l as [|x l IH]; simpl; [constructor | now apply insert_sorted].
Qed.

End SortedFacts.

Lemma sorted_ext {A} (lt1 lt2 : A -> A -> bool) (l : list A) :
  (forall a b, lt1 a b = lt2 a b) -> sorted lt1 l = sorted lt2 l.
Proof.
  intros H. induction l as [|x l IH]; simpl; [reflexivity |].
  rewrite IH. generalize (sorted lt2 l) as s.
  induction s as [|y s IHs]; simpl; [reflexivity |].
  now rewrite H, IHs.
Qed.

Lemma sorted_map {A B} (g : B -> A) (lt : A -> A -> bool) (l : list B) :
  map g (sorted (fun a b => lt (g a) (g b)) l) = sorted lt (map g l).
Proof.
  induction l as [|x l IH]; simpl; [reflexivity |].
  rewrite <- IH. generalize (sorted (fun a b => lt (g a) (g b)) l) as s.
  induction s as [|y s IHs]; simpl; [reflexivity |].
  destruct (lt (g y) (g x)); simpl; [now rewrite IHs | reflexivity].
Qed.

Lemma filter_map_comm {A B} (g : B -> A) (keep : A -> bool) (l : list B) :
  map g (filter (fun e => keep (g e)) l) = filter keep (map g l).
Proof.
  induction l as [|x l IH]; simpl; [reflexivity |].
  destruct (keep (g x)); simpl; now rewrite IH.
Qed.

Lemma StronglySorted_weaken {A} (R S : A -> A -> Prop) (l : list A) :
  (forall a b, R a b -> S a b) -> StronglySorted R l -> StronglySorted S l.
Proof.
  intros H. induction 1 as [| x l Hs IH Hx]; constructor; auto.
  eapply Forall_impl; [| exact Hx]. auto.
Qed.

Lemma is_nil_map {A B} (g : A -> B) (l : list A) : is_nil (map g l) = is_nil l.
Proof. now destruct l. Qed.

(** ** The order of strings *)

Lemma N_compare_trans (x y z : N) (c : comparison) :
  (x ?= y)%N = c -> (y ?= z)%N = c -> (x ?= z)%N = c.
Proof.
  destruct c; intros H1 H2.
  - apply N.compare_eq_iff in H1, H2. apply N.compare_eq_iff. congruence.
  - exact (N.lt_trans x y z H1 H2).
  - exact (N.lt_gt _ _ (N.lt_trans _ _ _ (N.gt_lt _ _ H2) (N.gt_lt _ _ H1))).
Qed.

Lemma str_compare_eq (a b : pystr) : str_compare a b = Eq <-> a = b.
Proof. apply list_compare_refl. apply N.compare_eq_iff. Qed.

Lemma str_compare_antisym (a b : pystr) :
  str_compare b a = CompOpp (str_compare a b).
Proof.
  apply list_compare_antisym; [apply N.compare_eq_iff | apply N.compare_antisym].
Qed.

Lemma str_compare_trans (a b c : pystr) (r : comparison) :
  str_compare a b = r -> str_compare b c = r -> str_compare a c = r.
Proof.
  apply list_compare_trans;
    [apply N.compare_eq_iff | apply N_compare_trans | apply N.compare_antisym].
Qed.

Lemma str_ltb_asym (a b : pystr) : str_ltb a b = true -> str_ltb b a = false.
Proof.
  unfold str_ltb. rewrite (str_compare_antisym a b).
  now destruct (str_compare a b).
Qed.

Lemma str_ltb_le_trans (a b c : pystr) :
  str_ltb b a = false -> str_ltb c b = false -> str_ltb c a = false.
Proof.
  unfold str_ltb. intros Hba Hcb.
  destruct (str_compare b a) eqn:Eba; try discriminate;
    destruct (str_compare c b) eqn:Ecb; try discriminate.
  - apply str_compare_eq in Eba, Ecb. subst.
    now rewrite (proj2 (str_compare_eq a a) eq_refl).
  - apply str_compare_eq in Eba. subst. now rewrite Ecb.
  - apply str_compare_eq in Ecb. subst. now rewrite Eba.
  - now rewrite (str_compare_trans _ _ _ _ Ecb Eba).
Qed.

Lemma str_ltb_false_le (a b : pystr) : str_ltb b a = false -> str_le a b.
Proof.
  unfold str_ltb, str_le. rewrite (str_compare_antisym a b).
  destruct (str_compare a b); simpl; congruence.
Qed.

(** ** The tree renderer of src/app *)

Section AppTree.
Context `{StrLower}.

Lemma key_lt_asym (a b : node) :
  App.key_lt a b = true -> App.key_lt b a = false.
Proof.
  unfold App.key_lt.
  destruct (node_is_file a), (node_is_file b); try congruence;
    apply str_ltb_asym.
Qed.

Lemma key_lt_le_trans (a b c : node) :
  App.key_lt b a = false -> App.key_lt c b = false -> App.key_lt c a = false.
Proof.
  unfold App.key_lt.
  destruct (node_is_file a), (node_is_file b), (node_is_file c);
    try congruence; apply str_ltb_le_trans.
Qed.

Lemma key_lt_false_order (a b : node) :
  App.key_lt b a = false -> dirs_first_caseless a b.
Proof.
  unfold App.key_lt, dirs_first_caseless, node_is_file.
  destruct (node_is_dir a), (node_is_dir b); simpl; try discriminate;
    intros E; auto; right; (split; [reflexivity | now apply str_ltb_false_le]).
Qed.

(** The children that are drawn: the shown ones, directories first,
    then by lower-cased name. *)
Lemma visible_entries_sorted {T} (path : Path) (all : list (node * T)) :
  Permutation (map fst (App.visible_entries path all))
              (filter (App.shown path) (map fst all))
  /\ StronglySorted dirs_first_caseless (map fst (App.visible_entries path all)).
Proof.
  unfold App.visible_entries.
  rewrite (sorted_map fst App.key_lt), (filter_map_comm fst (App.shown path)).
  split.
  - apply sorted_perm.
  - eapply StronglySorted_weaken; [apply key_lt_false_order |].
    apply (sorted_StronglySorted App.key_lt key_lt_asym key_lt_le_trans).
Qed.

Lemma render_entries_in_order (prefix : pystr) (entries : list App.entry) :
  forall text,
    App.render_entries prefix entries = Ok text ->
    drawn_in_order (App.entry_line prefix) (map fst entries) text.
Proof.
  induction entries as [| [e below] rest IH]; simpl; intros text E.
  - injection E as <-. constructor.
  - destruct (if node_is_dir e then _ else _) as [sub |]; [| discriminate].
    simpl in E.
    destruct (App.render_entries prefix rest) as [more |]; [| discriminate].
    injection E as <-.
    pose proof (drawn_cons (App.entry_line prefix) e (map fst rest) sub more
                  (IH _ eq_refl)) as D.
    rewrite is_nil_map in D. exact D.
Qed.

Lemma add_to_tree_unfold (nm : pystr) (cs : list node) (path : Path)
  (prefix : pystr) :
  App.add_to_tree (Dir nm true cs) path prefix
  = App.render_entries prefix
      (App.visible_entries path
         (map (fun c => (c, App.add_to_tree c (child path (node_name c)))) cs)).
Proof. reflexivity. Qed.

Lemma map_fst_attach {T} (f : node -> T) (cs : list node) :
  map fst (map (fun c => (c, f c)) cs) = cs.
Proof. rewrite map_map. simpl. apply map_id. Qed.

(** The drawing loop returns when every directory below does. *)
Lemma render_entries_returns (prefix : pystr) (entries : list App.entry) :
  Forall (fun en => node_is_dir (fst en) = true ->
                    forall p, exists s, snd en p = Ok s) entries ->
  exists text, App.render_entries prefix entries = Ok text.
Proof.
  induction 1 as [| [e below] rest He Hrest IH]; simpl.
  - eexists; reflexivity.
  - destruct IH as (more & ->). simpl in He.
    destruct (node_is_dir e).
    + match goal with
      | |- context [below ?p] => destruct (He eq_refl p) as (sub & ->)
      end.
      simpl. eexists; reflexivity.
    + simpl. eexists; reflexivity.
Qed.

(** On the file systems of the model, where a listing fails by
    PermissionError only, the renderer of src/app returns on every
    directory, listable or not, whatever lies below it. *)
Lemma add_to_tree_returns (n : node) :
  node_is_dir n = true ->
  forall path prefix, exists text, App.add_to_tree n path prefix = Ok text.
Proof.
  induction n as [nm r1 r2 | nm l cs IH] using node_ind'; intros Hd path prefix.
  - discriminate.
  - destruct l.
    + rewrite add_to_tree_unfold. apply render_entries_returns.
      unfold App.visible_entries.
      eapply Permutation_Forall; [symmetry; apply sorted_perm |].
      apply Forall_forall. intros en Hen. apply filter_In in Hen.
      destruct Hen as [Hen _]. apply in_map_iff in Hen.
      destruct Hen as (c & <- & Hc). simpl. intros Hcd p.
      rewrite Forall_forall in IH. now apply IH.
    + exists []. reflexivity.
Qed.

Lemma is_dir_resolve (fs : filesystem) (p : Path) :
  is_dir fs p = true -> exists nm l cs, resolve fs p = Some (Dir nm l cs).
Proof.
  unfold is_dir. destruct (resolve fs p) as [[| nm l cs] |]; try discriminate.
  intros _. now exists nm, l, cs.
Qed.

Lemma generate_directory_tree_returns (fs : filesystem) (directory : pystr) :
  exists tree, App.generate_directory_tree fs directory = Ok tree.
Proof.
  unfold App.generate_directory_tree.
  destruct (negb (exists_ fs (Path_of directory))); simpl;
    [eexists; reflexivity |].
  destruct (is_dir fs (Path_of directory)) eqn:D; simpl;
    [| eexists; reflexivity].
  destruct (is_dir_resolve _ _ D) as (nm & l & cs & ->).
  destruct (add_to_tree_returns (Dir nm l cs) eq_refl (Path_of directory) [])
    as (body & ->).
  simpl. eexists; reflexivity.
Qed.

End AppTree.

(** ** The tree renderer of src/src *)

Lemma parts_child (p : Path) (nm : pystr) : parts (child p nm) = parts p ++ [nm].
Proof. unfold parts, child; simpl. now destruct (anchor p). Qed.

(** Two children of one directory compare as their names do. *)
Lemma path_lt_siblings (root : Path) (a b : pystr) :
  SrcApp.path_lt (child root a) (child root b) = str_ltb a b.
Proof.
  unfold SrcApp.path_lt, str_ltb. rewrite !parts_child.
  rewrite (@list_compare_app _ str_compare str_compare_eq). simpl.
  now destruct (str_compare a b).
Qed.

Lemma visible_items_sorted {T} (root : Path) (all : list (node * T)) :
  Permutation (map fst (SrcApp.visible_items root all))
              (filter (fun c => negb (str_in (node_name c) SrcApp.EXCLUSION_PATTERNS))
                      (map fst all))
  /\ StronglySorted by_name (map fst (SrcApp.visible_items root all)).
Proof.
  unfold SrcApp.visible_items.
  rewrite (sorted_ext _ (fun a b => str_ltb (node_name (fst a)) (node_name (fst b))))
    by (intros; apply path_lt_siblings).
  rewrite (sorted_map fst (fun a b => str_ltb (node_name a) (node_name b))).
  rewrite (filter_map_comm fst
             (fun c => negb (str_in (node_name c) SrcApp.EXCLUSION_PATTERNS))).
  split.
  - apply sorted_perm.
  - eapply StronglySorted_weaken;
      [intros a b; apply (str_ltb_false_le (node_name a) (node_name b)) |].
    apply (sorted_StronglySorted
             (fun a b => str_ltb (node_name a) (node_name b))).
    + intros a b. apply str_ltb_asym.
    + intros a b c. apply str_ltb_le_trans.
Qed.

Lemma tree_lines_in_order (indent : pystr) (items : list SrcApp.entry) :
  forall lines,
    SrcApp.tree_lines indent items = Ok lines ->
    listed_in_order (SrcApp.item_line indent) (map fst items) lines.
Proof.
  induction items as [| [e below] rest IH]; simpl; intros lines E.
  - injection E as <-. constructor.
  - destruct (if node_is_dir e then _ else _) as [sub |]; [| discriminate].
    simpl in E.
    destruct (SrcApp.tree_lines indent rest) as [more |]; [| discriminate].
    injection E as <-.
    pose proof (listed_cons (SrcApp.item_line indent) e (map fst rest) sub more
                  (IH _ eq_refl)) as D.
    rewrite is_nil_map in D. exact D.
Qed.

Lemma tree_of_unfold (nm : pystr) (cs : list node) (root : Path) (indent : pystr) :
  SrcApp.tree_of (Dir nm true cs) root indent
  = (tree <- SrcApp.tree_lines indent
               (SrcApp.visible_items root
                  (map (fun c => (c, SrcApp.tree_of c (child root (node_name c))))
                       cs)) ;;
     Ok (join nl tree)).
Proof. reflexivity. Qed.

(** ** The order of the drawing *)

(** C6, as stated, fails in src/src: a file "a.py" is drawn before the
    directory "b". *)
Lemma C6_file_before_directory_counterexample :
  SrcApp.generate_directory_tree (fs_file_and_dir) (py "proj") []
  = Ok (SrcApp.item_line [] false proj_file_a ++ nl
        ++ SrcApp.item_line [] true proj_dir_b ++ nl)
  /\ node_is_dir proj_file_a = false
  /\ node_is_dir proj_dir_b = true
  /\ ~ dirs_first_caseless proj_file_a proj_dir_b.
Proof.
  repeat split; try (vm_compute; reflexivity).
  intros [[D _] | [D _]]; vm_compute in D; discriminate.
Qed.

(** C6 (amended): in src/app the text drawn for a directory holds the
    lines of its shown children, directories before files and, within
    each group, by lower-cased name in the order of strings; in src/src
    it holds the lines of its children that are not excluded, by name in
    the order of strings, without regard to case or to the kind of the
    entry. *)
Theorem C6_listing_order `{StrLower} :
  (forall nm cs path prefix text,
      App.add_to_tree (Dir nm true cs) path prefix = Ok text ->
      exists drawn,
        Permutation drawn (filter (App.shown path) cs)
        /\ StronglySorted dirs_first_caseless drawn
        /\ drawn_in_order (App.entry_line prefix) drawn text)
  /\
  (forall nm cs root indent text,
      SrcApp.tree_of (Dir nm true cs) root indent = Ok text ->
      exists drawn lines,
        text = join nl lines
        /\ Permutation drawn
             (filter (fun c => negb (str_in (node_name c) SrcApp.EXCLUSION_PATTERNS))
                     cs)
        /\ StronglySorted by_name drawn
        /\ listed_in_order (SrcApp.item_line indent) drawn lines).
Proof.
  split.
  - intros nm cs path prefix text E. rewrite add_to_tree_unfold in E.
    set (kids := map (fun c => (c, App.add_to_tree c (child path (node_name c)))) cs)
      in E.
    exists (map fst (App.visible_entries path kids)).
    destruct (visible_entries_sorted path kids) as [P S].
    unfold kids in P at 2. rewrite map_fst_attach in P.
    repeat split; auto. now apply render_entries_in_order.
  - intros nm cs root indent text E. rewrite tree_of_unfold in E.
    set (kids := map (fun c => (c, SrcApp.tree_of c (child root (node_name c)))) cs)
      in E.
    destruct (SrcApp.tree_lines indent (SrcApp.visible_items root kids))
      as [lines | e] eqn:R; simpl in E; [| discriminate].
    injection E as <-.
    exists (map fst (SrcApp.visible_items root kids)), lines.
    destruct (visible_items_sorted root kids) as [P S].
    unfold kids in P at 2. rewrite map_fst_attach in P.
    repeat split; auto. now apply tree_lines_in_order.
Qed.

Lemma C6_listing_order_witness :
  App.add_to_tree (Dir (py "proj") true [proj_file_a; proj_dir_b])
                  (Path_of (py "proj")) []
  = Ok (App.entry_line [] false proj_dir_b ++ App.entry_line [] true proj_file_a)
  /\ exists drawn,
       Permutation drawn
         (filter (App.shown (Path_of (py "proj"))) [proj_file_a; proj_dir_b])
       /\ StronglySorted dirs_first_caseless drawn
       /\ drawn_in_order (App.entry_line []) drawn
            (App.entry_line [] false proj_dir_b
             ++ App.entry_line [] true proj_file_a).
Proof.
  split; [vm_compute; reflexivity |].
  apply (proj1 (@C6_listing_order ascii_lower) (py "proj")
               [proj_file_a; proj_dir_b] (Path_of (py "proj")) []).
  vm_compute; reflexivity.
Defined.

(** ** Generation *)

Lemma bind_lift_ok {A B} (a : A) (k : A -> M B) : bind (lift (Ok a)) k = k a.
Proof. unfold bind, lift. now destruct (k a). Qed.

Lemma bind_lift_raise {A B} (e : exn) (k : A -> M B) :
  bind (lift (Raise e)) k = ([], Raise e).
Proof. reflexivity. Qed.

(** The one attempt at the remote call: the request is the only event,
    and whatever the endpoint or the response raises comes back through
    [report]. *)
Lemma remote_attempt (w : world) (req : request) (report : exn -> pystr) :
  try_except
    (response <~ generate_content w req ;; lift (response_text response))
    (fun e => ret (report e))
  = ([Requested req],
     Ok match endpoint w req with
        | Raise e => report e
        | Ok response =>
            match response_text response with
            | Ok text => text
            | Raise e => report e
            end
        end).
Proof.
  unfold generate_content, try_except, bind, emit, lift, ret.
  destruct (endpoint w req) as [[[text | e]] | e]; reflexivity.
Qed.

Section Generation.
Context `{StrLower}.

(** generate of src/app, branch by branch. *)
Lemma app_generate_cases (w : world) (self : App.READMEAgent) (dry : bool) :
  exists tree,
    App.generate_directory_tree (disk w) (App.project_path self) = Ok tree
    /\ App.generate w self dry
       = match App.get_file_summaries (disk w) self with
         | [] => ([], Ok App.no_files_message)
         | s :: ss =>
             let context_str := App.build_context tree (s :: ss) in
             if dry then ([], Ok (App.dry_run_preview (s :: ss) context_str))
             else
               match App.model self with
               | None => ([], Ok (App.missing_key_message context_str))
               | Some m =>
                   let req :=
                     mkRequest m
                       [App.construct_system_prompt;
                        py "Here is the codebase information:" ++ nl ++ nl
                        ++ context_str] in
                   ([Requested req],
                    Ok match endpoint w req with
                       | Raise e => App.generation_error e
                       | Ok response =>
                           match response_text response with
                           | Ok text => text
                           | Raise e => App.generation_error e
                           end
                       end)
               end
         end.
Proof.
  destruct (generate_directory_tree_returns (disk w) (App.project_path self))
    as (tree & Ht).
  exists tree. split; [assumption |].
  unfold App.generate. rewrite Ht, bind_lift_ok.
  destruct (App.get_file_summaries (disk w) self) as [| s ss]; [reflexivity |].
  destruct dry; [reflexivity |].
  destruct (App.model self) as [m |]; [| reflexivity].
  apply remote_attempt.
Qed.

(** generate of src/src, branch by branch. *)
Lemma src_generate_cases (w : world) (self : SrcApp.READMEAgent) (dry : bool) :
  SrcApp.generate w self dry
  = match SrcApp.get_context (disk w) self with
    | Raise e => ([], Raise e)
    | Ok context =>
        if dry then ([], Ok SrcApp.dry_run_message)
        else
          let req :=
            mkRequest SrcApp.MODEL_NAME [SrcApp.generation_prompt context] in
          ([Printed (py "Respecting API Quota: Waiting 12s cooldown...");
            Slept 12; Requested req],
           Ok match endpoint w req with
              | Raise e => SrcApp.generation_error e
              | Ok response =>
                  match response_text response with
                  | Ok text => text
                  | Raise e => SrcApp.generation_error e
                  end
              end)
    end.
Proof.
  unfold SrcApp.generate.
  destruct (SrcApp.get_context (disk w) self) as [context | e]; [| reflexivity].
  rewrite bind_lift_ok. destruct dry; [reflexivity |].
  unfold generate_content, try_except, bind, emit, lift, ret.
  destruct (endpoint w _) as [[[text | e]] | e]; reflexivity.
Qed.

End Generation.

(** ** The driver *)

Lemma remote_calls_app (tr tr' : list event) :
  remote_calls (tr ++ tr') = remote_calls tr + remote_calls tr'.
Proof. unfold remote_calls. now rewrite filter_app, length_app. Qed.

Lemma os_path_isdir_exists (fs : filesystem) (s : pystr) :
  os_path_isdir fs s = true -> os_path_exists fs s = true.
Proof.
  unfold os_path_isdir, os_path_exists. now destruct (os_stat fs s).
Qed.

Section Driver.
Context `{StrLower}.

(** main, branch by branch. *)
Lemma main_cases (pkg : package) (w : world) (a : args) :
  main pkg w a
  = if negb (os_path_exists (disk w) (directory_path a)) then
      mkProcess
        [Printed (py "Error: Directory '" ++ directory_path a
                  ++ py "' does not exist.")] 1
    else if negb (os_path_isdir (disk w) (directory_path a)) then
      mkProcess
        [Printed (py "Error: Path '" ++ directory_path a
                  ++ py "' is not a directory.")] 1
    else
      match make_and_generate pkg w a with
      | (tr, Ok text) => mkProcess (tr ++ [Printed text]) 0
      | (tr, Raise e) =>
          mkProcess
            (tr ++ [Printed (py "An unexpected error occurred: " ++ exn_text e)]) 1
      end.
Proof.
  unfold main.
  destruct (negb (os_path_exists _ _)); [reflexivity |].
  destruct (negb (os_path_isdir _ _)); [reflexivity |].
  unfold bind, emit. now destruct (make_and_generate pkg w a) as [tr [text | e]].
Qed.

(** The remote calls of a process are those of its generation. *)
Lemma main_remote_calls (pkg : package) (w : world) (a : args) :
  remote_calls (events (main pkg w a)) <= remote_calls (trace (make_and_generate pkg w a)).
Proof.
  rewrite main_cases.
  destruct (negb (os_path_exists _ _)); [apply Nat.le_0_l |].
  destruct (negb (os_path_isdir _ _)); [apply Nat.le_0_l |].
  destruct (make_and_generate pkg w a) as [tr [text | e]];
    cbn [events trace fst]; rewrite remote_calls_app;
    cbn [remote_calls filter is_request length]; lia.
Qed.

Lemma make_and_generate_dry (pkg : package) (w : world) (a : args) :
  dry_run a = true -> trace (make_and_generate pkg w a) = [].
Proof.
  intros D. destruct pkg; unfold make_and_generate; rewrite D.
  - destruct (app_generate_cases w
                (App.init w (directory_path a) (max_chars a)) true)
      as (tree & _ & ->).
    now destruct (App.get_file_summaries _ _).
  - destruct (SrcApp.init w (directory_path a) (max_chars a)) as [agent | e];
      [| reflexivity].
    rewrite bind_lift_ok, src_generate_cases.
    now destruct (SrcApp.get_context _ _).
Qed.

Lemma app_init_no_key (w : world) (project_path : pystr) (max_chars : Z) :
  truthy (GEMINI_API_KEY w) = false ->
  App.init w project_path max_chars = App.mkAgent project_path max_chars None.
Proof. unfold App.init. now intros ->. Qed.

Lemma src_init_no_key (w : world) (project_path : pystr) (max_chars : Z) :
  truthy (GEMINI_API_KEY w) = false ->
  SrcApp.init w project_path max_chars = Raise SrcApp.missing_key_error.
Proof.
  unfold SrcApp.init, truthy.
  destruct (GEMINI_API_KEY w) as [[| c k] |]; congruence.
Qed.

Lemma make_and_generate_no_key (pkg : package) (w : world) (a : args) :
  truthy (GEMINI_API_KEY w) = false -> trace (make_and_generate pkg w a) = [].
Proof.
  intros K. destruct pkg; unfold make_and_generate.
  - rewrite (app_init_no_key _ _ _ K).
    destruct (app_generate_cases w
                (App.mkAgent (directory_path a) (max_chars a) None) (dry_run a))
      as (tree & _ & ->).
    destruct (App.get_file_summaries _ _); [reflexivity |].
    now destruct (dry_run a).
  - now rewrite (src_init_no_key _ _ _ K).
Qed.

End Driver.

(** ** Dry run *)

(** C3, as stated, fails in src/app on a project without any valid
    file: the dry run returns the error text of the empty scan, which
    is no preview. *)
Lemma C3_empty_project_counterexample :
  App.generate w_empty_no_key (App.init w_empty_no_key (py "proj") 5000) true
  = ([], Ok App.no_files_message)
  /\ ~ is_preview App.no_files_message.
Proof.
  split; [vm_compute; reflexivity |].
  intros (summaries & context_str & E). discriminate E.
Qed.

(** C3 (amended): with the dry-run flag set, generate never invokes the
    remote endpoint, whatever the credential and the project.  In
    src/app it returns the preview when at least one file was
    summarised and the error text of the empty scan otherwise; in
    src/src it returns the dry-run notice when the context was gathered
    and raises what the gathering raised otherwise.  No process run
    with the flag makes a remote call. *)
Theorem C3_dry_run_no_remote_call `{StrLower} :
  (forall w self,
      exists tree,
        App.generate_directory_tree (disk w) (App.project_path self) = Ok tree
        /\ App.generate w self true
           = ([], Ok match App.get_file_summaries (disk w) self with
                     | [] => App.no_files_message
                     | s :: ss =>
                         App.dry_run_preview (s :: ss)
                           (App.build_context tree (s :: ss))
                     end))
  /\ (forall w self,
         SrcApp.generate w self true
         = ([], match SrcApp.get_context (disk w) self with
                | Ok _ => Ok SrcApp.dry_run_message
                | Raise e => Raise e
                end))
  /\ (forall pkg w a,
         dry_run a = true -> remote_calls (events (main pkg w a)) = 0).
Proof.
  repeat split.
  - intros w self. destruct (app_generate_cases w self true) as (tree & Ht & ->).
    exists tree. split; [assumption |].
    now destruct (App.get_file_summaries _ _).
  - intros w self. rewrite src_generate_cases.
    now destruct (SrcApp.get_context _ _).
  - intros pkg w a D. pose proof (main_remote_calls pkg w a) as L.
    rewrite (make_and_generate_dry _ _ _ D) in L.
    change (remote_calls []) with 0 in L. lia.
Qed.

Lemma C3_dry_run_no_remote_call_witness :
  dry_run (mkArgs (py "proj") true 5000) = true
  /\ remote_calls
       (events (main app_package w_project_quota (mkArgs (py "proj") true 5000)))
     = 0
  /\ remote_calls
       (events (main src_app_package w_project_quota (mkArgs (py "proj") true 5000)))
     = 0.
Proof.
  split; [reflexivity |]. split.
  - apply (proj2 (proj2 (@C3_dry_run_no_remote_call ascii_lower))). reflexivity.
  - apply (proj2 (proj2 (@C3_dry_run_no_remote_call ascii_lower))). reflexivity.
Defined.

(** ** The missing credential *)

(** C4, as stated, fails in src/app on a project without any valid
    file: without the credential and without the dry-run flag, the run
    returns the error text of the empty scan, which does not name the
    credential, and ends with status 0. *)
Lemma C4_empty_project_counterexample :
  truthy (GEMINI_API_KEY w_empty_no_key) = false
  /\ dry_run args_generate = false
  /\ main app_package w_empty_no_key args_generate
     = mkProcess [Printed App.no_files_message] 0
  /\ contains App.no_files_message (py "GEMINI_API_KEY") = false.
Proof. repeat split; vm_compute; reflexivity. Qed.

(** C4 (amended): when GEMINI_API_KEY is absent or empty, no run
    contacts the remote endpoint.  In src/src the agent refuses to be
    constructed: the constructor raises, and the driver prints the
    error and exits with status 1.  In src/app generate returns, when at
    least one file was summarised, the error text that names the
    credential, and the error text of the empty scan otherwise. *)
Theorem C4_missing_credential `{StrLower} :
  (forall pkg w a,
      truthy (GEMINI_API_KEY w) = false ->
      remote_calls (events (main pkg w a)) = 0)
  /\ (forall w project_path max_chars,
         truthy (GEMINI_API_KEY w) = false ->
         SrcApp.init w project_path max_chars = Raise SrcApp.missing_key_error)
  /\ (forall w a,
         truthy (GEMINI_API_KEY w) = false ->
         os_path_isdir (disk w) (directory_path a) = true ->
         main src_app_package w a
         = mkProcess
             [Printed (py "An unexpected error occurred: "
                       ++ exn_text SrcApp.missing_key_error)] 1)
  /\ (forall w project_path max_chars,
         truthy (GEMINI_API_KEY w) = false ->
         exists tree,
           App.generate_directory_tree (disk w) project_path = Ok tree
           /\ App.generate w (App.init w project_path max_chars) false
              = ([], Ok match App.get_file_summaries (disk w)
                                (App.init w project_path max_chars) with
                        | [] => App.no_files_message
                        | s :: ss =>
                            App.missing_key_message
                              (App.build_context tree (s :: ss))
                        end))
  /\ (forall context_str,
         contains (App.missing_key_message context_str) (py "GEMINI_API_KEY")
         = true).
Proof.
  split; [| split; [| split; [| split]]].
  - intros pkg w a K. pose proof (main_remote_calls pkg w a) as L.
    rewrite (make_and_generate_no_key _ _ _ K) in L.
    change (remote_calls []) with 0 in L. lia.
  - intros w project_path max_chars. apply src_init_no_key.
  - intros w a K D. rewrite main_cases.
    rewrite (os_path_isdir_exists _ _ D), D. cbn [negb].
    unfold make_and_generate. now rewrite (src_init_no_key _ _ _ K).
  - intros w project_path max_chars K. rewrite (app_init_no_key _ _ _ K).
    destruct (app_generate_cases w (App.mkAgent project_path max_chars None) false)
      as (tree & Ht & ->).
    exists tree. split; [assumption |].
    now destruct (App.get_file_summaries _ _).
  - intros context_str. reflexivity.
Qed.

Lemma C4_missing_credential_witness :
  truthy (GEMINI_API_KEY w_project_no_key) = false
  /\ remote_calls (events (main app_package w_project_no_key args_generate)) = 0
  /\ remote_calls (events (main src_app_package w_project_no_key args_generate))
     = 0
  /\ SrcApp.init w_project_no_key (py "proj") 5000
     = Raise SrcApp.missing_key_error.
Proof.
  split; [reflexivity |]. split; [| split].
  - apply (proj1 (@C4_missing_credential ascii_lower)). reflexivity.
  - apply (proj1 (@C4_missing_credential ascii_lower)). reflexivity.
  - apply (proj1 (proj2 (@C4_missing_credential ascii_lower))). reflexivity.
Defined.

(** ** A failing remote call *)

Section RemoteFailure.
Context `{StrLower}.

Lemma app_generate_failure (w : world) (self : App.READMEAgent) (dry : bool)
  (req : request) (e : exn) :
  In (Requested req) (trace (App.generate w self dry)) ->
  endpoint w req = Raise e ->
  outcome (App.generate w self dry) = Ok (App.generation_error e).
Proof.
  destruct (app_generate_cases w self dry) as (tree & _ & ->).
  destruct (App.get_file_summaries _ _) as [| s ss]; [intros [] |].
  cbv zeta. destruct dry; [intros [] |].
  destruct (App.model self) as [m |]; [| intros []].
  intros [E | []] Hr.
  apply (f_equal (fun ev => match ev with
                            | Requested r => endpoint w r
                            | _ => Raise e
                            end)) in E.
  cbv beta iota in E. cbn [outcome snd]. now rewrite E, Hr.
Qed.

Lemma src_generate_failure (w : world) (self : SrcApp.READMEAgent) (dry : bool)
  (req : request) (e : exn) :
  In (Requested req) (trace (SrcApp.generate w self dry)) ->
  endpoint w req = Raise e ->
  outcome (SrcApp.generate w self dry) = Ok (SrcApp.generation_error e).
Proof.
  rewrite src_generate_cases.
  destruct (SrcApp.get_context _ _) as [context | e']; [| intros []].
  destruct dry; [intros [] |]. cbv zeta.
  intros [E | [E | [E | []]]] Hr; try discriminate E.
  apply (f_equal (fun ev => match ev with
                            | Requested r => endpoint w r
                            | _ => Raise e
                            end)) in E.
  cbv beta iota in E. cbn [outcome snd]. now rewrite E, Hr.
Qed.

Lemma make_and_generate_failure (pkg : package) (w : world) (a : args)
  (req : request) (e : exn) :
  In (Requested req) (trace (make_and_generate pkg w a)) ->
  endpoint w req = Raise e ->
  outcome (make_and_generate pkg w a) = Ok (failure_report pkg e).
Proof.
  destruct pkg; unfold make_and_generate.
  - apply app_generate_failure.
  - destruct (SrcApp.init w (directory_path a) (max_chars a)) as [agent | e'].
    + rewrite bind_lift_ok. apply src_generate_failure.
    + intros [].
Qed.

(** A request among the events of a process is one of its generation. *)
Lemma main_requested (pkg : package) (w : world) (a : args) (req : request) :
  In (Requested req) (events (main pkg w a)) ->
  os_path_isdir (disk w) (directory_path a) = true
  /\ In (Requested req) (trace (make_and_generate pkg w a)).
Proof.
  rewrite main_cases.
  destruct (negb (os_path_exists _ _));
    [intros [E | []]; discriminate E |].
  destruct (os_path_isdir _ _); cbn [negb];
    [| intros [E | []]; discriminate E].
  destruct (make_and_generate pkg w a) as [tr [text | e]]; cbn [events trace fst];
    intros Hin; apply in_app_or in Hin;
    (destruct Hin as [Hin | [E | []]]; [auto | discriminate E]).
Qed.

End RemoteFailure.

(** C7: when the remote generation call raises, generate catches the
    exception and returns an error text instead of raising: the text
    "Error generating README: " in src/app, the text "An error occurred
    while generating the README: " in src/src, each followed by the
    description of the failure; the process prints that text and exits
    with status 0. *)
Theorem C7_remote_failure_reported `{StrLower} (pkg : package) (w : world)
  (a : args) (req : request) (e : exn) :
  In (Requested req) (events (main pkg w a)) ->
  endpoint w req = Raise e ->
  outcome (make_and_generate pkg w a) = Ok (failure_report pkg e)
  /\ failure_report pkg e
     = match pkg with
       | app_package => py "Error generating README: "
       | src_app_package => py "An error occurred while generating the README: "
       end ++ exn_text e
  /\ exit_status (main pkg w a) = 0%Z
  /\ In (Printed (failure_report pkg e)) (events (main pkg w a)).
Proof.
  intros Hin Hr. destruct (main_requested _ _ _ _ Hin) as [D Hreq].
  pose proof (make_and_generate_failure _ _ _ _ _ Hreq Hr) as Ho.
  split; [assumption |]. split.
  - now destruct pkg.
  - rewrite main_cases, (os_path_isdir_exists _ _ D), D. cbn [negb].
    destruct (make_and_generate pkg w a) as [tr r]. cbn [outcome snd] in Ho.
    subst r. cbn [exit_status events]. split; [reflexivity |].
    apply in_or_app. right. now left.
Qed.

Lemma C7_remote_failure_reported_witness :
  (In (Requested project_request_app)
      (events (main app_package w_project_quota args_generate))
   /\ endpoint w_project_quota project_request_app = Raise quota_error
   /\ exit_status (main app_package w_project_quota args_generate) = 0%Z
   /\ In (Printed (py "Error generating README: 429 quota exceeded"))
         (events (main app_package w_project_quota args_generate)))
  /\ (In (Requested project_request_src)
         (events (main src_app_package w_project_quota args_generate))
      /\ endpoint w_project_quota project_request_src = Raise quota_error
      /\ exit_status (main src_app_package w_project_quota args_generate) = 0%Z
      /\ In (Printed (py "An error occurred while generating the README: 429 quota exceeded"))
            (events (main src_app_package w_project_quota args_generate))).
Proof.
  assert (Ha : In (Requested project_request_app)
                  (events (main app_package w_project_quota args_generate)))
    by (vm_compute; auto).
  assert (Hs : In (Requested project_request_src)
                  (events (main src_app_package w_project_quota args_generate)))
    by (vm_compute; auto).
  split.
  - split; [exact Ha |]. split; [reflexivity |].
    destruct (@C7_remote_failure_reported ascii_lower app_package w_project_quota
                args_generate project_request_app quota_error Ha eq_refl)
      as (_ & E & X & P).
    split; [exact X |]. rewrite E in P. exact P.
  - split; [exact Hs |]. split; [reflexivity |].
    destruct (@C7_remote_failure_reported ascii_lower src_app_package w_project_quota
                args_generate project_request_src quota_error Hs eq_refl)
      as (_ & E & X & P).
    split; [exact X |]. rewrite E in P. exact P.
Defined.

(** ** The exit status *)

Lemma startswith_app (x post : pystr) : startswith (x ++ post) x = true.
Proof.
  induction x as [|c x IH]; simpl; [now destruct post |].
  now rewrite N.eqb_refl.
Qed.

Lemma contains_here (hay needle : pystr) :
  startswith hay needle = true -> contains hay needle = true.
Proof. intros E. destruct hay; simpl in *; now rewrite E. Qed.

Lemma contains_skip (pre hay needle : pystr) :
  contains hay needle = true -> contains (pre ++ hay) needle = true.
Proof.
  intros E. induction pre as [|c pre IH]; simpl; [assumption |].
  rewrite IH. apply orb_true_r.
Qed.

Lemma contains_middle (pre x post : pystr) : contains (pre ++ x ++ post) x = true.
Proof. apply contains_skip, contains_here, startswith_app. Qed.





(** ** A directory that cannot be listed *)

(** In src/app such a directory is drawn as its own line only. *)
Lemma add_to_tree_unlistable `{StrLower} (nm : pystr) (cs : list node)
  (path : Path) (prefix : pystr) :
  App.add_to_tree (Dir nm false cs) path prefix = Ok [].
Proof. reflexivity. Qed.

(** In src/src the error leaves the renderer: the loop over the items
    raises as soon as the drawing below one of them does. *)
Lemma tree_lines_raises (indent : pystr) (items : list SrcApp.entry) :
  Exists (fun en => node_is_dir (fst en) = true
                    /\ forall p, exists e, snd en p = Raise e) items ->
  exists e, SrcApp.tree_lines indent items = Raise e.
Proof.
  induction items as [| [item below] rest IH]; intros Hex.
  - inversion Hex.
  - cbn [SrcApp.tree_lines].
    destruct (node_is_dir item) eqn:D.
    + destruct (below (indent ++ (if is_nil rest then last_extension
                                  else mid_extension))) as [s | e] eqn:B.
      * cbn [bind_result]. inversion Hex as [? ? [_ Hb] | ? ? Hrest]; subst.
        -- cbn [snd] in Hb. destruct (Hb (indent ++ (if is_nil rest then last_extension else mid_extension))) as (e & He).
           congruence.
        -- destruct (IH Hrest) as (e & ->). eexists; reflexivity.
      * eexists; reflexivity.
    + cbn [bind_result]. inversion Hex as [? ? [Hd _] | ? ? Hrest]; subst.
      * cbn [fst] in Hd. congruence.
      * destruct (IH Hrest) as (e & ->). eexists; reflexivity.
Qed.

Lemma holds_locked_is_dir (n : node) : holds_locked n -> node_is_dir n = true.
Proof. now destruct 1. Qed.

(** The renderer of src/src raises on every tree that holds such a
    directory. *)
Lemma src_tree_aborts (n : node) :
  holds_locked n ->
  forall root indent, exists e, SrcApp.tree_of n root indent = Raise e.
Proof.
  induction 1 as [nm cs | nm cs c Hin Hname Hc IH]; intros root indent.
  - eexists. reflexivity.
  - rewrite tree_of_unfold.
    match goal with
    | |- exists e, bind_result ?r _ = _ =>
        cut (exists e, r = Raise e); [intros (e & ->); exists e; reflexivity |]
    end.
    apply tree_lines_raises. apply Exists_exists.
    exists (c, SrcApp.tree_of c (child root (node_name c))). split.
    + unfold SrcApp.visible_items.
      eapply Permutation_in; [symmetry; apply sorted_perm |].
      apply filter_In. cbn [fst]. rewrite Hname. split; [| reflexivity].
      apply in_map_iff. exists c. auto.
    + split; [now apply holds_locked_is_dir |]. intros p. apply IH.
Qed.

(** In src/app the drawing is that of the tree in which every
    directory that cannot be listed is empty: what is below such a
    directory is skipped, the rest is drawn. *)
Section Emptied.
Context `{StrLower}.

Let agree (a b : App.entry) : Prop :=
  node_name (fst a) = node_name (fst b)
  /\ node_is_dir (fst a) = node_is_dir (fst b)
  /\ forall p, snd a p = snd b p.

Lemma filter_agree (path : Path) (l1 l2 : list App.entry) :
  Forall2 agree l1 l2 ->
  Forall2 agree (filter (fun e => App.shown path (fst e)) l1)
                (filter (fun e => App.shown path (fst e)) l2).
Proof.
  induction 1 as [| a b l1 l2 (Hn & Hd & Hb) Hl IH]; simpl; [constructor |].
  assert (E : App.shown path (fst a) = App.shown path (fst b))
    by (unfold App.shown; now rewrite Hn).
  rewrite E. destruct (App.shown path (fst b)); [constructor |]; auto.
  now repeat split.
Qed.

Lemma insert_agree (x y : App.entry) (l1 l2 : list App.entry) :
  agree x y -> Forall2 agree l1 l2 ->
  Forall2 agree (insert (fun a b => App.key_lt (fst a) (fst b)) x l1)
                (insert (fun a b => App.key_lt (fst a) (fst b)) y l2).
Proof.
  intros Hxy. induction 1 as [| a b l1 l2 Hab Hl IH]; simpl.
  - constructor; [exact Hxy | constructor].
  - assert (E : App.key_lt (fst a) (fst x) = App.key_lt (fst b) (fst y)).
    { destruct Hxy as (Hn & Hd & _), Hab as (Hn' & Hd' & _).
      unfold App.key_lt, node_is_file. now rewrite Hn, Hd, Hn', Hd'. }
    rewrite E. destruct (App.key_lt (fst b) (fst y)).
    + constructor; assumption.
    + constructor; [exact Hxy |]. constructor; assumption.
Qed.

Lemma visible_agree (path : Path) (l1 l2 : list App.entry) :
  Forall2 agree l1 l2 ->
  Forall2 agree (App.visible_entries path l1) (App.visible_entries path l2).
Proof.
  intros Hl. unfold App.visible_entries.
  apply filter_agree with (path := path) in Hl.
  induction Hl as [| a b k1 k2 Hab Hk IH]; simpl; [constructor |].
  now apply insert_agree.
Qed.

Lemma render_agree (prefix : pystr) (l1 l2 : list App.entry) :
  Forall2 agree l1 l2 ->
  App.render_entries prefix l1 = App.render_entries prefix l2.
Proof.
  induction 1 as [| [e1 b1] [e2 b2] l1 l2 (Hn & Hd & Hb) Hl IH];
    [reflexivity |].
  cbn [fst snd] in Hn, Hd, Hb. cbn [App.render_entries].
  assert (En : is_nil l1 = is_nil l2) by (destruct Hl; reflexivity).
  unfold App.entry_line. now rewrite IH, Hn, Hd, En, Hb.
Qed.

Lemma emptied_name (n : node) : node_name (emptied n) = node_name n.
Proof. now destruct n as [| nm [|] cs]. Qed.

Lemma emptied_is_dir (n : node) : node_is_dir (emptied n) = node_is_dir n.
Proof. now destruct n as [| nm [|] cs]. Qed.

Lemma add_to_tree_emptied (n : node) :
  forall path prefix,
    App.add_to_tree n path prefix = App.add_to_tree (emptied n) path prefix.
Proof.
  induction n as [nm r1 r2 | nm l cs IH] using node_ind'; intros path prefix.
  - reflexivity.
  - destruct l; [| reflexivity].
    cbn [emptied]. rewrite !add_to_tree_unfold.
    apply render_agree, visible_agree. rewrite map_map.
    induction IH as [| c cs Hc Hcs IHcs]; simpl; constructor; auto.
    repeat split; cbn [fst snd].
    + now rewrite emptied_name.
    + now rewrite emptied_is_dir.
    + intros p. rewrite emptied_name. apply Hc.
Qed.

End Emptied.

(** C9 holds in src/app and fails in src/src: on a project with a
    directory that cannot be listed, the renderer of src/src raises
    PermissionError, and the process, dry run or not, ends with status
    1; the renderer of src/app draws the directory and what follows
    it. *)
Theorem C9_src_render_aborts :
  SrcApp.generate_directory_tree fs_locked (py "proj") []
  = Raise (mkExn PermissionError (py "proj/locked"))
  /\ exit_status (main src_app_package w_locked (mkArgs (py "proj") true 5000))
     = 1%Z
  /\ App.generate_directory_tree fs_locked (py "proj")
     = Ok (py "proj/" ++ nl
           ++ App.entry_line [] false locked_dir
           ++ App.entry_line [] true (text_file "z.py" "z = 0")).
Proof. repeat split; vm_compute; reflexivity. Qed.

(** ** Reading *)


(** latin-1 decodes whatever was read. *)
Lemma read_text_latin1 (fs : filesystem) (path : Path) (retry : bool) :
  read_text fs path LATIN1 retry
  = match read_bytes fs path retry with
    | Ok bs => Ok (translate_newlines (latin1_decode bs))
    | Raise e => Raise e
    end.
Proof. unfold read_text. now destruct (read_bytes fs path retry). Qed.

(** The reader of src/app has no text to return exactly when the first
    attempt fails otherwise than in the decoding, or fails in the
    decoding and the bytes cannot be read again: latin-1 itself never
    fails. *)
Lemma read_file_content_none (fs : filesystem) (path : Path) :
  App.read_file_content fs path = None
  <-> (exists e, read_text fs path UTF8 false = Raise e
                 /\ is_UnicodeDecodeError e = false)
      \/ (exists e e',
             read_text fs path UTF8 false = Raise e
             /\ is_UnicodeDecodeError e = true
             /\ read_bytes fs path true = Raise e').
Proof.
  unfold App.read_file_content. rewrite read_text_latin1.
  destruct (read_text fs path UTF8 false) as [s | e].
  - split; [discriminate |].
    intros [(e & E & _) | (e & e' & E & _)]; discriminate.
  - destruct (is_UnicodeDecodeError e) eqn:U.
    + destruct (read_bytes fs path true) as [bs | e'].
      * split; [discriminate |].
        intros [(e0 & E & U0) | (e0 & e' & _ & _ & E)]; [| discriminate].
        injection E as <-. congruence.
      * split; [| reflexivity]. intros _. right. exists e, e'. auto.
    + split; [| reflexivity]. intros _. left. exists e. auto.
Qed.

(** ** The empty file *)

Lemma list_files_below (fs : filesystem) (directory : pystr) (p : Path) :
  In p (App.list_files fs directory) ->
  exists rel file, below (Path_of directory) (rel ++ [file]) p.
Proof.
  intros Hin. apply list_files_walk in Hin.
  destruct Hin as (n & [[root dirs] files] & _ & Ht & Hp).
  destruct (os_walk_roots _ _ _ _ _ _ Ht) as (rel & Hb & _).
  unfold listed in Hp. apply in_flat_map in Hp. destruct Hp as (file & _ & Hp).
  destruct (negb _); [contradiction |]. destruct Hp as [<- | []].
  exists rel, file. now apply child_below.
Qed.

Lemma join_snoc_nonempty (rel : list pystr) :
  rel <> [] -> str_of_path (mkPath [] rel) = join [slash] rel.
Proof. now destruct rel. Qed.

Lemma build_context_concat (tree : pystr) (summaries : list App.FileSummary) :
  App.build_context tree summaries
  = App.context_header tree ++ concat (map App.context_section summaries).
Proof.
  unfold App.build_context.
  rewrite (fold_left_appends _ App.context_section) by reflexivity.
  now rewrite flat_map_concat_map.
Qed.

Lemma app_summary_step_fields (fs : filesystem) (self : App.READMEAgent)
  (file_path : Path) :
  App.summary_step fs self [] file_path
  = if has_text fs file_path then
      match App.read_file_content fs file_path with
      | Some text =>
          [App.mkFileSummary (shown_path self file_path) (suffix file_path)
             (py "Content of " ++ shown_path self file_path)
             (stored_content App.truncation_marker
                (App.max_chars_per_file self) text)]
      | None => []
      end
    else [].
Proof.
  unfold App.summary_step, has_text.
  now destruct (App.read_file_content fs file_path) as [[| c cs] |].
Qed.








(** ** The decoding policy *)

(** C5, as stated, fails in src/src: a file in latin-1 fails the UTF-8
    decoding, a second attempt in latin-1 would return its text, as the
    reader of src/app does, yet src/src makes no second attempt and the
    file is absent from its summaries. *)
Lemma C5_no_fallback_counterexample :
  read_text fs_latin1 proj_a_txt UTF8 false = Raise utf8_error
  /\ is_UnicodeDecodeError utf8_error = true
  /\ read_text fs_latin1 proj_a_txt LATIN1 true = Ok [233%N]
  /\ App.read_file_content fs_latin1 proj_a_txt = Some [233%N]
  /\ In proj_a_txt (rglob_star fs_latin1 (Path_of (py "proj")))
  /\ src_selected fs_latin1 proj_a_txt = true
  /\ SrcApp.get_file_summaries fs_latin1 (py "proj") 5000 = [].
Proof. repeat split; vm_compute; auto. Qed.

(** C5 (amended): the reader of src/app first attempts UTF-8; when the
    decoding fails it attempts latin-1 once; when that attempt fails
    too it returns None, and a file without text adds nothing to the
    summaries.  The reader of src/src attempts UTF-8 only, and a file
    whose attempt fails adds nothing to the summaries.  In both, every
    stored content is that of a text that an attempt returned. *)
Theorem C5_decoding_policy :
  (forall fs path text,
      read_text fs path UTF8 false = Ok text ->
      App.read_file_content fs path = Some text)
  /\ (forall fs path e,
         read_text fs path UTF8 false = Raise e ->
         is_UnicodeDecodeError e = true ->
         App.read_file_content fs path
         = match read_text fs path LATIN1 true with
           | Ok text => Some text
           | Raise _ => None
           end)
  /\ (forall fs self path acc,
         App.read_file_content fs path = None ->
         App.summary_step fs self acc path = acc)
  /\ (forall fs self s,
         In s (App.get_file_summaries fs self) ->
         exists path text,
           In path (App.list_files fs (App.project_path self))
           /\ App.read_file_content fs path = Some text
           /\ text <> []
           /\ App.content s
              = stored_content App.truncation_marker
                  (App.max_chars_per_file self) text)
  /\ (forall fs root max_chars path acc e,
         read_text fs path UTF8 false = Raise e ->
         SrcApp.summary_step fs root max_chars acc path = acc)
  /\ (forall fs root_path max_chars s,
         In s (SrcApp.get_file_summaries fs root_path max_chars) ->
         exists path text,
           In path (rglob_star fs (Path_of root_path))
           /\ read_text fs path UTF8 false = Ok text
           /\ SrcApp.content s
              = stored_content SrcApp.truncation_marker max_chars text).
Proof.
  split; [| split; [| split; [| split; [| split]]]].
  - intros fs path text E. unfold App.read_file_content. now rewrite E.
  - intros fs path e E U. unfold App.read_file_content. now rewrite E, U.
  - intros fs self path acc E. unfold App.summary_step. now rewrite E.
  - intros fs self s Hin. rewrite app_summaries_flat_map in Hin.
    apply in_flat_map in Hin. destruct Hin as (path & Hp & Hin).
    apply app_summary_step_cases in Hin.
    destruct Hin as (text & Ht & Hne & _ & _ & Hc).
    exists path, text. auto.
  - intros fs root max_chars path acc e E. unfold SrcApp.summary_step.
    rewrite E. destruct (is_dir fs path || _); [reflexivity |].
    now destruct (str_in (suffix path) SrcApp.SUPPORTED_EXTENSIONS).
  - intros fs root_path max_chars s Hin. rewrite src_summaries_flat_map in Hin.
    apply in_flat_map in Hin. destruct Hin as (path & Hp & Hin).
    apply src_summary_step_cases in Hin.
    destruct Hin as (text & rel_path & _ & Ht & _ & ->).
    exists path, text. auto.
Qed.

Lemma C5_decoding_policy_witness :
  (read_text fs_latin1 proj_a_txt UTF8 false = Raise utf8_error
   /\ is_UnicodeDecodeError utf8_error = true
   /\ App.read_file_content fs_latin1 proj_a_txt
      = match read_text fs_latin1 proj_a_txt LATIN1 true with
        | Ok text => Some text
        | Raise _ => None
        end)
  /\ (forall acc,
         SrcApp.summary_step fs_latin1 (Path_of (py "proj")) 5000 acc proj_a_txt
         = acc)
  /\ (read_text fs_project proj_a_py UTF8 false = Ok (py "print('hello')")
      /\ App.read_file_content fs_project proj_a_py = Some (py "print('hello')")).
Proof.
  assert (E : read_text fs_latin1 proj_a_txt UTF8 false = Raise utf8_error)
    by reflexivity.
  assert (E' : read_text fs_project proj_a_py UTF8 false = Ok (py "print('hello')"))
    by reflexivity.
  split; [| split].
  - split; [exact E |]. split; [reflexivity |].
    apply (proj1 (proj2 C5_decoding_policy) fs_latin1 proj_a_txt utf8_error E).
    reflexivity.
  - intros acc.
    apply (proj1 (proj2 (proj2 (proj2 (proj2 C5_decoding_policy))))
                 fs_latin1 (Path_of (py "proj")) 5000%Z proj_a_txt acc utf8_error E).
  - split; [exact E' |].
    apply (proj1 C5_decoding_policy fs_project proj_a_py _ E').
Defined.

(* ================================================================== *)
(** * Further properties *)

(** ** The scan of src/app, exactly *)

Lemma os_walk_iff (keep : pystr -> bool) (n : node) :
  forall top root dirs files,
    In (root, dirs, files) (os_walk keep n top)
    <-> exists rel kids,
          walk_dir keep n rel kids
          /\ below top rel root
          /\ dirs = filter keep (map node_name (filter node_is_dir kids))
          /\ files = map node_name (filter node_is_file kids).
Proof.
  induction n as [nm r1 r2 | nm l cs IH] using node_ind';
    intros top root dirs files.
  - split; [intros [] | intros (rel & kids & W & _); inversion W].
  - destruct l; cbn [os_walk].
    2:{ split; [intros [] | intros (rel & kids & W & _); inversion W]. }
    rewrite Forall_forall in IH. split.
    + intros [E | Hin].
      * injection E as <- <- <-. exists [], cs.
        repeat split; [constructor | apply below_nil].
      * apply in_flat_map in Hin. destruct Hin as (c & Hc & Hin).
        destruct (node_is_dir c) eqn:D; [| contradiction].
        destruct (keep (node_name c)) eqn:K; [| contradiction].
        cbn [andb] in Hin. apply (IH c Hc) in Hin.
        destruct Hin as (rel & kids & W & Hb & Hd & Hf).
        exists (node_name c :: rel), kids. repeat split; auto.
        -- now apply walk_step.
        -- now apply below_child.
    + intros (rel & kids & W & Hb & Hd & Hf). inversion W; subst.
      * left. unfold below in Hb. rewrite app_nil_r in Hb. subst root.
        now destruct top.
      * right. apply in_flat_map. exists c. split; [assumption |].
        match goal with
        | Hdir : node_is_dir c = true, Hk : keep (node_name c) = true |- _ =>
            rewrite Hdir, Hk
        end.
        cbn [andb]. apply (IH c); [assumption |].
        exists rel0, kids. repeat split; auto.
        unfold below in *. cbn [child anchor comps].
        now rewrite <- app_assoc.
Qed.

Lemma walk_dir_is_dir (keep : pystr -> bool) (n : node) (rel : list pystr)
  (kids : list node) :
  walk_dir keep n rel kids -> node_is_dir n = true.
Proof. now destruct 1. Qed.

Lemma list_files_flat_map (fs : filesystem) (directory : pystr) (n : node) :
  resolve fs (Path_of directory) = Some n ->
  node_is_dir n = true ->
  App.list_files fs directory
  = flat_map listed (os_walk kept n (Path_of directory)).
Proof.
  intros R D. unfold App.list_files, exists_, is_dir. rewrite R.
  destruct n as [| nm l cs]; [discriminate |]. cbn [negb].
  rewrite (fold_left_appends _ listed); [reflexivity |].
  intros acc [[root dirs] files]. unfold listed.
  apply fold_left_appends. intros acc' file.
  destruct (negb (str_in (suffix (child root file)) App.SUPPORTED_EXTENSIONS));
    [now rewrite app_nil_r | reflexivity].
Qed.

(** X1: list_files returns exactly the files with a supported extension
    that lie below the root through listable directories none of whose
    names is an exclusion entry. *)
Theorem list_files_exact (fs : filesystem) (directory : pystr) (p : Path) :
  In p (App.list_files fs directory)
  <-> exists n rel kids f,
        resolve fs (Path_of directory) = Some n
        /\ walk_dir kept n rel kids
        /\ In f kids
        /\ node_is_file f = true
        /\ str_in (suffix_of_name (node_name f)) App.SUPPORTED_EXTENSIONS = true
        /\ below (Path_of directory) (rel ++ [node_name f]) p.
Proof.
  split.
  - intros Hin. apply list_files_walk in Hin.
    destruct Hin as (n & [[root dirs] files] & R & Ht & Hp).
    apply os_walk_iff in Ht. destruct Ht as (rel & kids & W & Hb & _ & ->).
    unfold listed in Hp. apply in_flat_map in Hp. destruct Hp as (file & Hf & Hp).
    rewrite suffix_child in Hp.
    destruct (str_in (suffix_of_name file) App.SUPPORTED_EXTENSIONS) eqn:S;
      [| contradiction].
    destruct Hp as [<- | []].
    apply in_map_iff in Hf. destruct Hf as (f & <- & Hf).
    apply filter_In in Hf. destruct Hf as [Hf Hfile].
    exists n, rel, kids, f. repeat split; auto. now apply child_below.
  - intros (n & rel & kids & f & R & W & Hf & Hfile & S & Hb).
    rewrite (list_files_flat_map _ _ _ R (walk_dir_is_dir _ _ _ _ W)).
    apply in_flat_map.
    exists (mkPath (anchor (Path_of directory)) (comps (Path_of directory) ++ rel),
            filter kept (map node_name (filter node_is_dir kids)),
            map node_name (filter node_is_file kids)).
    split.
    + apply os_walk_iff. exists rel, kids. repeat split; auto.
    + unfold listed. apply in_flat_map. exists (node_name f). split.
      * apply in_map. apply filter_In. auto.
      * rewrite suffix_child, S. left.
        unfold below in Hb. subst p. unfold child; cbn [anchor comps].
        now rewrite app_assoc.
Qed.

Lemma list_files_exact_witness :
  In (mkPath [] [py "build"; py "proj"; py "sub"; py "b.md"])
     (App.list_files fs_under_build (py "build/proj")).
Proof.
  apply (proj2 (list_files_exact fs_under_build (py "build/proj") _)).
  exists (Dir (py "proj") true
            [text_file "a.py" "ab"; Dir (py "sub") true [text_file "b.md" "# b"]]),
         [py "sub"], [text_file "b.md" "# b"], (text_file "b.md" "# b").
  split; [reflexivity |]. split.
  - apply (walk_step kept (py "proj") _ (Dir (py "sub") true [text_file "b.md" "# b"])
             [] _); [vm_compute; auto | reflexivity | reflexivity | constructor].
  - repeat split; try reflexivity. now left.
Defined.

(** ** Exclusion by a part of the path *)

Lemma should_exclude_parts_iff (ps : list pystr) :
  App.should_exclude_parts ps = true
  <-> exists part, In part ps /\ In part App.EXCLUSION_PATTERNS.
Proof.
  induction ps as [| part ps IH]; cbn [App.should_exclude_parts].
  - split; [discriminate | intros (part & [] & _)].
  - destruct (str_in part App.EXCLUSION_PATTERNS) eqn:E.
    + split; [| reflexivity]. intros _. exists part. split; [now left |].
      now apply str_in_In.
    + rewrite IH. split.
      * intros (q & Hq & Hex). exists q. split; [now right | assumption].
      * intros (q & [<- | Hq] & Hex).
        -- apply str_in_In in Hex. congruence.
        -- exists q. auto.
Qed.

(** X2: should_exclude holds of a path exactly when one of its parts
    is equal to an exclusion entry; a part that only begins with an
    entry does not count, and the parts of the directories above count
    as much as the name. *)
Theorem should_exclude_exact (path : Path) :
  App.should_exclude path = true <-> has_excluded_part App.EXCLUSION_PATTERNS path.
Proof. apply should_exclude_parts_iff. Qed.

Lemma parts_below (top : Path) (rel : list pystr) (p : Path) :
  below top rel p -> parts p = parts top ++ rel.
Proof.
  unfold below, parts. intros ->. cbn [anchor comps].
  now destruct (anchor top).
Qed.

Lemma flat_map_all_nil {A B} (f : A -> list B) (l : list A) :
  (forall x, In x l -> f x = []) -> flat_map f l = [].
Proof.
  induction l as [| x l IH]; intros Hf; [reflexivity |].
  cbn [flat_map]. rewrite (Hf x (or_introl eq_refl)), IH; [reflexivity |].
  intros y Hy. apply Hf. now right.
Qed.

(** X3: below a root one of whose parts is an exclusion entry, src/src
    summarises nothing, whatever the directory holds. *)
Theorem src_summaries_excluded_root (fs : filesystem) (root_path : pystr)
  (max_chars : Z) :
  has_excluded_part SrcApp.EXCLUSION_PATTERNS (Path_of root_path) ->
  SrcApp.get_file_summaries fs root_path max_chars = [].
Proof.
  intros (part & Hpart & Hex). rewrite src_summaries_flat_map.
  apply flat_map_all_nil. intros file_path Hin.
  destruct (rglob_star_below _ _ _ Hin) as (rel & _ & Hb).
  unfold SrcApp.summary_step.
  replace (existsb (fun q => str_in q SrcApp.EXCLUSION_PATTERNS) (parts file_path))
    with true; [now rewrite orb_true_r |].
  symmetry. apply existsb_exists. exists part. split.
  - rewrite (parts_below _ _ _ Hb). apply in_or_app. now left.
  - now apply str_in_In.
Qed.

Lemma src_summaries_excluded_root_witness :
  has_excluded_part SrcApp.EXCLUSION_PATTERNS (Path_of (py "build"))
  /\ SrcApp.get_file_summaries fs_build (py "build") 5000 = []
  /\ App.list_files fs_build (py "build") = [build_a_py].
Proof.
  assert (H : has_excluded_part SrcApp.EXCLUSION_PATTERNS (Path_of (py "build")))
    by (exists (py "build"); split; vm_compute; auto 10).
  split; [exact H |]. split; [| reflexivity].
  apply (src_summaries_excluded_root fs_build (py "build") 5000%Z H).
Defined.

(** ** The tree of src/app below an excluded root *)

Lemma sorted_nil {A} (lt : A -> A -> bool) : sorted lt [] = [].
Proof. reflexivity. Qed.

Lemma filter_all_false {A} (keep : A -> bool) (l : list A) :
  (forall x, In x l -> keep x = false) -> filter keep l = [].
Proof.
  induction l as [| x l IH]; intros Hf; [reflexivity |].
  cbn [filter]. rewrite (Hf x (or_introl eq_refl)). apply IH.
  intros y Hy. apply Hf. now right.
Qed.

(** X4: when one of the parts of the root path is an exclusion entry,
    the tree of src/app is the line of the root alone: every entry is
    hidden by should_exclude, which tests the parts above it too. *)
Theorem app_tree_excluded_root `{StrLower} (fs : filesystem) (directory : pystr) :
  is_dir fs (Path_of directory) = true ->
  has_excluded_part App.EXCLUSION_PATTERNS (Path_of directory) ->
  App.generate_directory_tree fs directory
  = Ok (name_of (Path_of directory) ++ [slash] ++ nl).
Proof.
  intros D (part & Hpart & Hex).
  unfold App.generate_directory_tree, exists_.
  destruct (is_dir_resolve _ _ D) as (nm & l & cs & R). rewrite D, R. cbn [negb orb].
  assert (E : App.add_to_tree (Dir nm l cs) (Path_of directory) [] = Ok []).
  { destruct l; [| reflexivity]. rewrite add_to_tree_unfold.
    unfold App.visible_entries. rewrite filter_all_false; [reflexivity |].
    intros en _. unfold App.shown.
    replace (App.should_exclude (child (Path_of directory) (node_name (fst en))))
      with true; [apply andb_false_r |].
    symmetry. apply should_exclude_parts_iff. exists part. split; [| assumption].
    rewrite parts_child. apply in_or_app. now left. }
  rewrite E. cbn [bind_result]. now rewrite app_nil_r.
Qed.

Lemma app_tree_excluded_root_witness :
  is_dir fs_build (Path_of (py "build")) = true
  /\ has_excluded_part App.EXCLUSION_PATTERNS (Path_of (py "build"))
  /\ App.generate_directory_tree fs_build (py "build") = Ok (py "build/" ++ nl).
Proof.
  assert (H : has_excluded_part App.EXCLUSION_PATTERNS (Path_of (py "build")))
    by (exists (py "build"); split; vm_compute; auto 12).
  split; [reflexivity |]. split; [exact H |].
  apply (@app_tree_excluded_root ascii_lower fs_build (py "build") eq_refl H).
Defined.

(** ** The renderers and the directories that cannot be listed *)

(** X6: _add_to_tree of src/app draws a tree as it draws the tree in
    which every directory that cannot be listed is empty: such a
    directory keeps its line, what is below it is left out, and
    everything else is drawn. *)
Theorem app_tree_skips_unlistable `{StrLower} (n : node) (path : Path)
  (prefix : pystr) :
  App.add_to_tree n path prefix = App.add_to_tree (emptied n) path prefix.
Proof. apply add_to_tree_emptied. Qed.

Lemma tree_lines_returns (indent : pystr) (items : list SrcApp.entry) :
  Forall (fun en => node_is_dir (fst en) = true ->
                    forall p, exists s, snd en p = Ok s) items ->
  exists lines, SrcApp.tree_lines indent items = Ok lines.
Proof.
  induction 1 as [| [item below] rest He Hrest IH]; cbn [SrcApp.tree_lines].
  - eexists; reflexivity.
  - destruct IH as (more & ->). cbn [fst snd] in He.
    destruct (node_is_dir item).
    + match goal with
      | |- context [below ?p] => destruct (He eq_refl p) as (sub & ->)
      end.
      cbn [bind_result]. eexists; reflexivity.
    + cbn [bind_result]. eexists; reflexivity.
Qed.

Lemma src_tree_returns (n : node) :
  node_is_dir n = true -> ~ holds_locked n ->
  forall root indent, exists text, SrcApp.tree_of n root indent = Ok text.
Proof.
  induction n as [nm r1 r2 | nm l cs IH] using node_ind';
    intros D Hfree root indent.
  - discriminate.
  - destruct l; [| exfalso; apply Hfree; constructor].
    rewrite tree_of_unfold.
    match goal with
    | |- exists text, bind_result ?r _ = _ =>
        cut (exists lines, r = Ok lines);
        [intros (lines & ->); eexists; reflexivity |]
    end.
    apply tree_lines_returns. unfold SrcApp.visible_items.
    eapply Permutation_Forall; [symmetry; apply sorted_perm |].
    apply Forall_forall. intros en Hen. apply filter_In in Hen.
    destruct Hen as [Hen Hname]. apply in_map_iff in Hen.
    destruct Hen as (c & <- & Hc). cbn [fst snd] in *. intros Hcd p.
    rewrite Forall_forall in IH. apply (IH c Hc Hcd).
    intros Hl. apply Hfree. apply (locked_below nm cs c Hc); [| assumption].
    now apply negb_true_iff in Hname.
Qed.

(** X7: generate_directory_tree of src/src raises on a directory
    exactly when a directory that cannot be listed lies in it, at the
    root or below it through directories whose names are not exclusion
    entries; what is below an excluded name is never listed. *)
Theorem src_tree_raises_exactly (nm : pystr) (l : bool) (cs : list node)
  (root : Path) (indent : pystr) :
  (exists e, SrcApp.tree_of (Dir nm l cs) root indent = Raise e)
  <-> holds_locked (Dir nm l cs).
Proof.
  split.
  - intros (e & E).
    destruct l; [| constructor].
    assert (Hdec : holds_locked (Dir nm true cs) \/ ~ holds_locked (Dir nm true cs)).
    { clear E e. revert nm.
      assert (Hall : forall n, holds_locked n \/ ~ holds_locked n).
      { induction n as [nm r1 r2 | nm l' cs' IH] using node_ind'.
        - right. intros Hl. inversion Hl.
        - destruct l'; [| left; constructor].
          induction IH as [| c cs'' Hc Hcs IHcs].
          + right. intros Hl. inversion Hl; subst. contradiction.
          + destruct (str_in (node_name c) SrcApp.EXCLUSION_PATTERNS) eqn:X.
            * destruct IHcs as [Hl | Hn].
              -- left. inversion Hl; subst.
                 eapply locked_below; [right; eassumption | assumption | assumption].
              -- right. intros Hl. inversion Hl as [| ? ? c' Hin Hx Hc']; subst.
                 destruct Hin as [<- | Hin]; [congruence |].
                 apply Hn. eapply locked_below; eassumption.
            * destruct Hc as [Hc | Hc].
              -- left. eapply locked_below; [now left | assumption | assumption].
              -- destruct IHcs as [Hl | Hn].
                 ++ left. inversion Hl; subst.
                    eapply locked_below; [right; eassumption | assumption | assumption].
                 ++ right. intros Hl. inversion Hl as [| ? ? c' Hin Hx Hc']; subst.
                    destruct Hin as [<- | Hin]; [contradiction |].
                    apply Hn. eapply locked_below; eassumption. }
      intros nm. apply Hall. }
    destruct Hdec as [Hl | Hn]; [assumption |].
    destruct (src_tree_returns (Dir nm true cs) eq_refl Hn root indent) as (t & Ht).
    congruence.
  - intros Hl. now apply src_tree_aborts.
Qed.

Lemma src_tree_raises_exactly_witness :
  holds_locked (Dir (py "proj") true [locked_dir; text_file "z.py" "z = 0"])
  /\ exists e,
       SrcApp.tree_of (Dir (py "proj") true [locked_dir; text_file "z.py" "z = 0"])
                      (Path_of (py "proj")) []
       = Raise e.
Proof.
  assert (H : holds_locked (Dir (py "proj") true [locked_dir; text_file "z.py" "z = 0"])).
  { apply (locked_below (py "proj") _ locked_dir);
      [now left | reflexivity | constructor]. }
  split; [exact H |].
  apply (proj2 (src_tree_raises_exactly (py "proj") true _ (Path_of (py "proj")) [])).
  exact H.
Defined.

Lemma should_exclude_exact_witness :
  has_excluded_part App.EXCLUSION_PATTERNS build_a_py
  /\ App.should_exclude build_a_py = true.
Proof.
  assert (H : has_excluded_part App.EXCLUSION_PATTERNS build_a_py)
    by (exists (py "build"); split; vm_compute; auto 12).
  split; [exact H |]. apply (proj2 (should_exclude_exact build_a_py) H).
Defined.

(** ** What the reader of src/app returns *)

(** X8: read_file_content never skips a file that can be read, whatever
    its bytes: bytes that are UTF-8 come back decoded as such, any other
    bytes come back decoded as latin-1, one character for each byte
    before the newlines are translated. *)
Theorem read_file_content_readable (fs : filesystem) (path : Path) (nm : pystr)
  (bs bs' : list byte) :
  resolve fs path = Some (File nm (Ok bs) (Ok bs')) ->
  App.read_file_content fs path
  = Some match utf8_decode (map Byte.to_N bs) with
         | Some text => translate_newlines text
         | None => translate_newlines (latin1_decode bs')
         end.
Proof.
  intros R. unfold App.read_file_content, read_text, read_bytes. rewrite R.
  now destruct (utf8_decode (map Byte.to_N bs)).
Qed.

Lemma read_file_content_readable_witness :
  resolve fs_binary_txt proj_logo_txt
  = Some (File (py "logo.txt") (Ok [x89; x50; x4e; x47]) (Ok [x89; x50; x4e; x47]))
  /\ App.read_file_content fs_binary_txt proj_logo_txt = Some [137; 80; 78; 71]%N.
Proof.
  split; [reflexivity |].
  apply (read_file_content_readable fs_binary_txt proj_logo_txt (py "logo.txt")
           [x89; x50; x4e; x47] [x89; x50; x4e; x47] eq_refl).
Defined.

(** ** The summaries of src/app *)

Lemma stored_content_nonempty (marker : pystr) (M : Z) (text : pystr) :
  marker <> [] -> text <> [] -> stored_content marker M text <> [].
Proof.
  intros Hm Ht. unfold stored_content.
  destruct (Z.of_nat (length text) >? M)%Z; [| assumption].
  intros E. apply app_eq_nil in E. now destruct E.
Qed.

(** X9: every summary of src/app is that of a scanned file: its path
    is the path of the file relative to the root, joined with slashes
    (the fallback on ValueError is never taken), its extension is the
    file's and is supported, its description is "Content of " and the
    path, and its content is not empty. *)
Theorem app_summary_fields (fs : filesystem) (self : App.READMEAgent)
  (s : App.FileSummary) :
  In s (App.get_file_summaries fs self) ->
  exists file_path rel,
    In file_path (App.list_files fs (App.project_path self))
    /\ below (Path_of (App.project_path self)) rel file_path
    /\ rel <> []
    /\ App.path s = join [slash] rel
    /\ App.extension s = suffix file_path
    /\ str_in (App.extension s) App.SUPPORTED_EXTENSIONS = true
    /\ App.summary s = py "Content of " ++ App.path s
    /\ App.content s <> [].
Proof.
  rewrite app_summaries_flat_map. intros Hin. apply in_flat_map in Hin.
  destruct Hin as (file_path & Hp & Hin).
  destruct (list_files_below _ _ _ Hp) as (rel & file & Hb).
  destruct (list_files_filters _ _ _ Hp) as (S & _).
  rewrite app_summary_step_fields in Hin.
  destruct (has_text fs file_path) eqn:T; [| contradiction].
  unfold has_text in T.
  destruct (App.read_file_content fs file_path) as [[| c cs] |];
    try discriminate.
  destruct Hin as [<- | []].
  exists file_path, (rel ++ [file]).
  assert (Hne : rel ++ [file] <> []) by (destruct rel; discriminate).
  unfold shown_path. rewrite (relative_to_below _ _ _ Hb).
  rewrite (join_snoc_nonempty _ Hne). cbn [App.path App.extension App.summary App.content].
  repeat split; auto.
  apply stored_content_nonempty; discriminate.
Qed.

Lemma app_summary_fields_witness :
  In (App.mkFileSummary (py "a.py") (py ".py") (py "Content of a.py")
        (py "print('hello')"))
     (App.get_file_summaries fs_project agent_default)
  /\ exists file_path rel,
       In file_path (App.list_files fs_project (App.project_path agent_default))
       /\ below (Path_of (App.project_path agent_default)) rel file_path
       /\ rel <> []
       /\ py "a.py" = join [slash] rel
       /\ py ".py" = suffix file_path
       /\ str_in (py ".py") App.SUPPORTED_EXTENSIONS = true
       /\ py "Content of a.py" = py "Content of " ++ py "a.py"
       /\ py "print('hello')" <> [].
Proof.
  assert (H : In (App.mkFileSummary (py "a.py") (py ".py") (py "Content of a.py")
                    (py "print('hello')"))
                 (App.get_file_summaries fs_project agent_default))
    by (vm_compute; auto).
  split; [exact H |].
  apply (app_summary_fields fs_project agent_default _ H).
Defined.

(** X10: the summaries of src/app are, in the order of the scan, those
    of the scanned files whose read gives a text that is not empty: one
    summary for each of them and none for the others. *)
Theorem app_summaries_in_scan_order (fs : filesystem) (self : App.READMEAgent) :
  map App.path (App.get_file_summaries fs self)
  = map (shown_path self)
        (filter (has_text fs) (App.list_files fs (App.project_path self))).
Proof.
  rewrite app_summaries_flat_map.
  induction (App.list_files fs (App.project_path self)) as [| p l IH];
    [reflexivity |].
  cbn [flat_map filter]. rewrite map_app, IH, app_summary_step_fields.
  destruct (has_text fs p) eqn:T; [| reflexivity].
  unfold has_text in T.
  destruct (App.read_file_content fs p) as [text |]; [reflexivity | discriminate].
Qed.

(** X11: truncation never lengthens a content by more than the marker,
    whatever the limit, negative ones included: every stored content of
    src/app and of src/src is at most as long as the text that was read
    plus the marker. *)
Theorem stored_length_bound :
  (forall fs self s,
      In s (App.get_file_summaries fs self) ->
      exists file_path text,
        In file_path (App.list_files fs (App.project_path self))
        /\ App.read_file_content fs file_path = Some text
        /\ length (App.content s) <= length text + length App.truncation_marker)
  /\ (forall fs root_path max_chars s,
         In s (SrcApp.get_file_summaries fs root_path max_chars) ->
         exists file_path text,
           In file_path (rglob_star fs (Path_of root_path))
           /\ read_text fs file_path UTF8 false = Ok text
           /\ length (SrcApp.content s)
              <= length text + length SrcApp.truncation_marker).
Proof.
  assert (B : forall marker M text,
             length (stored_content marker M text) <= length text + length marker).
  { intros marker M text. unfold stored_content, slice_to.
    destruct (Z.of_nat (length text) >? M)%Z; [| lia].
    rewrite length_app.
    destruct (M <? 0)%Z; rewrite length_firstn; lia. }
  split.
  - intros fs self s Hin. rewrite app_summaries_flat_map in Hin.
    apply in_flat_map in Hin. destruct Hin as (file_path & Hp & Hin).
    apply app_summary_step_cases in Hin.
    destruct Hin as (text & Ht & _ & _ & _ & ->).
    exists file_path, text. auto.
  - intros fs root_path max_chars s Hin. rewrite src_summaries_flat_map in Hin.
    apply in_flat_map in Hin. destruct Hin as (file_path & Hp & Hin).
    apply src_summary_step_cases in Hin.
    destruct Hin as (text & rel_path & _ & Ht & _ & ->).
    exists file_path, text. repeat split; auto. apply B.
Qed.

Lemma stored_length_bound_witness :
  In (App.mkFileSummary (py "a.py") (py ".py") (py "Content of a.py")
        (py "a" ++ App.truncation_marker))
     (App.get_file_summaries fs_two_chars agent_minus_one)
  /\ exists file_path text,
       In file_path (App.list_files fs_two_chars (App.project_path agent_minus_one))
       /\ App.read_file_content fs_two_chars file_path = Some text
       /\ length (py "a" ++ App.truncation_marker)
          <= length text + length App.truncation_marker.
Proof.
  assert (H : In (App.mkFileSummary (py "a.py") (py ".py") (py "Content of a.py")
                    (py "a" ++ App.truncation_marker))
                 (App.get_file_summaries fs_two_chars agent_minus_one))
    by (vm_compute; auto).
  split; [exact H |].
  apply (proj1 stored_length_bound fs_two_chars agent_minus_one _ H).
Defined.

(** ** The remote calls of a run *)

Section Calls.
Context `{StrLower}.

Lemma app_generate_calls (w : world) (self : App.READMEAgent) (dry : bool) :
  remote_calls (trace (App.generate w self dry))
  = match App.get_file_summaries (disk w) self, App.model self with
    | _ :: _, Some _ => if dry then 0 else 1
    | _, _ => 0
    end.
Proof.
  destruct (app_generate_cases w self dry) as (tree & _ & ->).
  destruct (App.get_file_summaries _ _) as [| s ss]; [reflexivity |].
  cbv zeta. destruct dry; [now destruct (App.model self) |].
  now destruct (App.model self).
Qed.

Lemma src_generate_calls (w : world) (self : SrcApp.READMEAgent) (dry : bool) :
  remote_calls (trace (SrcApp.generate w self dry))
  = match SrcApp.get_context (disk w) self with
    | Ok _ => if dry then 0 else 1
    | Raise _ => 0
    end.
Proof.
  rewrite src_generate_cases.
  destruct (SrcApp.get_context _ _); [| reflexivity]. now destruct dry.
Qed.

Lemma make_and_generate_calls (pkg : package) (w : world) (a : args) :
  remote_calls (trace (make_and_generate pkg w a)) <= 1.
Proof.
  destruct pkg; unfold make_and_generate.
  - rewrite app_generate_calls.
    destruct (App.get_file_summaries _ _); [lia |].
    destruct (App.model _); [| lia]. destruct (dry_run a); lia.
  - destruct (SrcApp.init w (directory_path a) (max_chars a)) as [agent | e].
    + rewrite bind_lift_ok, src_generate_calls.
      destruct (SrcApp.get_context _ _); [| lia]. destruct (dry_run a); lia.
    + cbn. lia.
Qed.

End Calls.

(** X12: a run makes at most one remote call, and never a second one
    after a failure.  generate of src/app makes its call exactly when
    the flag is off, the model is configured and at least one file was
    summarised; generate of src/src exactly when the flag is off and the
    context was gathered. *)
Theorem one_remote_call_at_most `{StrLower} :
  (forall pkg w a, remote_calls (events (main pkg w a)) <= 1)
  /\ (forall w self dry,
         remote_calls (trace (App.generate w self dry))
         = match App.get_file_summaries (disk w) self, App.model self with
           | _ :: _, Some _ => if dry then 0 else 1
           | _, _ => 0
           end)
  /\ (forall w self dry,
         remote_calls (trace (SrcApp.generate w self dry))
         = match SrcApp.get_context (disk w) self with
           | Ok _ => if dry then 0 else 1
           | Raise _ => 0
           end).
Proof.
  split; [| split].
  - intros pkg w a. pose proof (main_remote_calls pkg w a).
    pose proof (make_and_generate_calls pkg w a). lia.
  - apply app_generate_calls.
  - apply src_generate_calls.
Qed.

(** ** The cooldown *)

Lemma sleeps_app (tr tr' : list event) : sleeps (tr ++ tr') = sleeps tr ++ sleeps tr'.
Proof. unfold sleeps. apply flat_map_app. Qed.

(** X13: src/app never sleeps; src/src sleeps 12 seconds once for each
    remote call it makes, so not at all in a dry run or when the run
    ends before the call; and in src/src the call comes right after the
    notice of the cooldown and the sleep. *)
Theorem cooldown_before_each_call `{StrLower} :
  (forall w a, sleeps (events (main app_package w a)) = [])
  /\ (forall w a,
         sleeps (events (main src_app_package w a))
         = repeat 12 (remote_calls (events (main src_app_package w a))))
  /\ (forall w self dry req,
         In (Requested req) (trace (SrcApp.generate w self dry)) ->
         trace (SrcApp.generate w self dry)
         = [Printed (py "Respecting API Quota: Waiting 12s cooldown...");
            Slept 12; Requested req]).
Proof.
  split; [| split].
  - intros w a. rewrite main_cases.
    destruct (negb (os_path_exists _ _)); [reflexivity |].
    destruct (negb (os_path_isdir _ _)); [reflexivity |].
    unfold make_and_generate.
    destruct (app_generate_cases w
                (App.init w (directory_path a) (max_chars a)) (dry_run a))
      as (tree & _ & ->).
    destruct (App.get_file_summaries _ _); [reflexivity |]. cbv zeta.
    destruct (dry_run a); [reflexivity |].
    now destruct (App.model _).
  - intros w a. rewrite main_cases.
    destruct (negb (os_path_exists _ _)); [reflexivity |].
    destruct (negb (os_path_isdir _ _)); [reflexivity |].
    unfold make_and_generate.
    destruct (SrcApp.init w (directory_path a) (max_chars a)) as [agent | e];
      [| reflexivity].
    rewrite bind_lift_ok, src_generate_cases.
    destruct (SrcApp.get_context _ _); [| reflexivity].
    now destruct (dry_run a).
  - intros w self dry req. rewrite src_generate_cases.
    destruct (SrcApp.get_context _ _); [| intros []].
    destruct dry; [intros [] |]. cbv zeta. cbn [trace fst].
    intros [E | [E | [E | []]]]; try discriminate E.
    now rewrite E.
Qed.

Lemma cooldown_before_each_call_witness :
  In (Requested project_request_src)
     (trace (SrcApp.generate w_project_quota
               (SrcApp.mkAgent (py "key") (py "proj") 5000) false))
  /\ trace (SrcApp.generate w_project_quota
              (SrcApp.mkAgent (py "key") (py "proj") 5000) false)
     = [Printed (py "Respecting API Quota: Waiting 12s cooldown...");
        Slept 12; Requested project_request_src].
Proof.
  assert (H : In (Requested project_request_src)
                 (trace (SrcApp.generate w_project_quota
                           (SrcApp.mkAgent (py "key") (py "proj") 5000) false)))
    by (vm_compute; auto).
  split; [exact H |].
  apply (proj2 (proj2 (@cooldown_before_each_call ascii_lower)) _ _ _ _ H).
Defined.

(** ** The exit status, exactly *)




(** ** What is sent to the endpoint *)

Lemma occurs_refl (x : pystr) : occurs_in x x.
Proof. exists [], []. now rewrite app_nil_r. Qed.

Lemma occurs_app_l (a b x : pystr) : occurs_in a x -> occurs_in (a ++ b) x.
Proof.
  intros (pre & post & ->). exists pre, (post ++ b). now rewrite <- !app_assoc.
Qed.

Lemma occurs_app_r (a b x : pystr) : occurs_in b x -> occurs_in (a ++ b) x.
Proof.
  intros (pre & post & ->). exists (a ++ pre), post. now rewrite <- !app_assoc.
Qed.

Lemma occurs_contains (y x : pystr) : occurs_in y x -> contains y x = true.
Proof. intros (pre & post & ->). apply contains_middle. Qed.

Lemma occurs_concat (ls : list pystr) (l x : pystr) :
  In l ls -> occurs_in l x -> occurs_in (concat ls) x.
Proof.
  induction ls as [| l' ls IH]; intros Hin Hx; [destruct Hin |].
  cbn [concat]. destruct Hin as [<- | Hin].
  - now apply occurs_app_l.
  - apply occurs_app_r. now apply IH.
Qed.

Lemma occurs_join (sep : pystr) (ls : list pystr) (l x : pystr) :
  In l ls -> occurs_in l x -> occurs_in (join sep ls) x.
Proof.
  induction ls as [| l' ls IH]; intros Hin Hx; [destruct Hin |].
  cbn [join]. destruct ls as [| l'' ls'].
  - destruct Hin as [<- | []]. assumption.
  - destruct Hin as [<- | Hin].
    + now apply occurs_app_l.
    + apply occurs_app_r, occurs_app_r. now apply IH.
Qed.

Lemma app_context_holds (tree : pystr) (summaries : list App.FileSummary)
  (s : App.FileSummary) :
  In s summaries ->
  occurs_in (App.build_context tree summaries) (App.content s)
  /\ occurs_in (App.build_context tree summaries) (App.path s)
  /\ occurs_in (App.build_context tree summaries) tree.
Proof.
  intros Hin. rewrite build_context_concat. repeat split.
  - apply occurs_app_r. apply (occurs_concat _ (App.context_section s)).
    + now apply in_map.
    + unfold App.context_section.
      do 7 apply occurs_app_r. apply occurs_app_l, occurs_refl.
  - apply occurs_app_r. apply (occurs_concat _ (App.context_section s)).
    + now apply in_map.
    + unfold App.context_section.
      do 2 apply occurs_app_r. apply occurs_app_l, occurs_refl.
  - apply occurs_app_l. unfold App.context_header.
    do 4 apply occurs_app_r. apply occurs_app_l, occurs_refl.
Qed.

Lemma src_context_parts (summaries : list SrcApp.FileSummary) (init : list pystr) :
  fold_left (fun acc s =>
               acc ++ [py "## File: " ++ SrcApp.relative_path s;
                       SrcApp.fence ++ nl ++ SrcApp.content s ++ nl ++ SrcApp.fence])
            summaries init
  = init ++ flat_map (fun s =>
                        [py "## File: " ++ SrcApp.relative_path s;
                         SrcApp.fence ++ nl ++ SrcApp.content s ++ nl ++ SrcApp.fence])
                     summaries.
Proof. now apply fold_left_appends. Qed.

Lemma src_context_holds (fs : filesystem) (self : SrcApp.READMEAgent)
  (context : pystr) (s : SrcApp.FileSummary) :
  SrcApp.get_context fs self = Ok context ->
  In s (SrcApp.get_file_summaries fs (SrcApp.project_path self)
          (SrcApp.max_chars_per_file self)) ->
  occurs_in context (SrcApp.content s)
  /\ occurs_in context (SrcApp.relative_path s).
Proof.
  unfold SrcApp.get_context.
  destruct (SrcApp.generate_directory_tree fs (SrcApp.project_path self) [])
    as [tree | e]; [| discriminate].
  cbn [bind_result]. rewrite src_context_parts. intros E Hin.
  apply (f_equal (fun r => match r with Ok c => c | Raise _ => [] end)) in E.
  cbv beta iota in E. rewrite <- E. clear E.
  split.
  - apply (occurs_join _ _ (SrcApp.fence ++ nl ++ SrcApp.content s ++ nl ++ SrcApp.fence)).
    + apply in_or_app. right. apply in_flat_map. exists s. split; [assumption |].
      right. now left.
    + do 2 apply occurs_app_r. apply occurs_app_l, occurs_refl.
  - apply (occurs_join _ _ (py "## File: " ++ SrcApp.relative_path s)).
    + apply in_or_app. right. apply in_flat_map. exists s. split; [assumption |].
      now left.
    + apply occurs_app_r, occurs_refl.
Qed.

(** X15: whatever is summarised is sent: in the request that generate
    makes, of src/app and of src/src alike, one of the contents holds
    the path and the stored content of every summary (and in src/app
    the tree), whole and unchanged. *)
Theorem request_holds_every_summary `{StrLower} :
  (forall w self dry req,
      In (Requested req) (trace (App.generate w self dry)) ->
      exists c tree,
        In c (req_contents req)
        /\ App.generate_directory_tree (disk w) (App.project_path self) = Ok tree
        /\ contains c tree = true
        /\ forall s,
             In s (App.get_file_summaries (disk w) self) ->
             contains c (App.content s) = true
             /\ contains c (App.path s) = true)
  /\ (forall w self dry req,
         In (Requested req) (trace (SrcApp.generate w self dry)) ->
         exists c,
           In c (req_contents req)
           /\ forall s,
                In s (SrcApp.get_file_summaries (disk w) (SrcApp.project_path self)
                        (SrcApp.max_chars_per_file self)) ->
                contains c (SrcApp.content s) = true
                /\ contains c (SrcApp.relative_path s) = true).
Proof.
  split.
  - intros w self dry req Hreq.
    destruct (app_generate_cases w self dry) as (tree & Ht & E).
    rewrite E in Hreq. clear E.
    destruct (App.get_file_summaries (disk w) self) as [| s0 ss] eqn:S;
      [destruct Hreq |].
    cbv zeta in Hreq. destruct dry; [destruct Hreq |].
    destruct (App.model self) as [m |]; [| destruct Hreq].
    destruct Hreq as [E | []].
    apply (f_equal (fun ev => match ev with
                              | Requested r => req_contents r
                              | _ => []
                              end)) in E.
    cbv beta iota in E. cbn [req_contents] in E. rewrite <- E. clear E.
    eexists. exists tree. split; [right; left; reflexivity |].
    split; [assumption |]. split.
    + destruct (app_context_holds tree (s0 :: ss) s0 (or_introl eq_refl))
        as (_ & _ & Htree).
      apply occurs_contains; do 3 apply occurs_app_r; assumption.
    + intros s Hin.
      destruct (app_context_holds tree (s0 :: ss) s Hin) as (Hc & Hp & _).
      split; apply occurs_contains; do 3 apply occurs_app_r; assumption.
  - intros w self dry req Hreq. rewrite src_generate_cases in Hreq.
    destruct (SrcApp.get_context (disk w) self) as [context | e] eqn:G;
      [| destruct Hreq].
    destruct dry; [destruct Hreq |]. cbv zeta in Hreq.
    destruct Hreq as [E | [E | [E | []]]]; try discriminate E.
    apply (f_equal (fun ev => match ev with
                              | Requested r => req_contents r
                              | _ => []
                              end)) in E.
    cbv beta iota in E. cbn [req_contents] in E. rewrite <- E. clear E.
    eexists. split; [left; reflexivity |]. intros s Hin.
    destruct (src_context_holds _ _ _ _ G Hin) as (Hc & Hp).
    unfold SrcApp.generation_prompt.
    split; apply occurs_contains; do 6 apply occurs_app_r; assumption.
Qed.

Lemma request_holds_every_summary_witness :
  In (Requested project_request_app)
     (trace (App.generate w_project_quota
               (App.init w_project_quota (py "proj") 5000) false))
  /\ exists c tree,
       In c (req_contents project_request_app)
       /\ App.generate_directory_tree (disk w_project_quota)
            (App.project_path (App.init w_project_quota (py "proj") 5000))
          = Ok tree
       /\ contains c tree = true
       /\ forall s,
            In s (App.get_file_summaries (disk w_project_quota)
                    (App.init w_project_quota (py "proj") 5000)) ->
            contains c (App.content s) = true
            /\ contains c (App.path s) = true.
Proof.
  assert (Hr : In (Requested project_request_app)
                  (trace (App.generate w_project_quota
                            (App.init w_project_quota (py "proj") 5000) false)))
    by (vm_compute; auto).
  split; [exact Hr |].
  apply (proj1 (@request_holds_every_summary ascii_lower) _ _ _ _ Hr).
Defined.

(** ** What a run prints *)

Lemma printed_app (tr tr' : list event) :
  printed (tr ++ tr') = printed tr ++ printed tr'.
Proof. unfold printed. apply flat_map_app. Qed.

(** X16: a process run with the agent of src/app prints exactly one
    text; one run with the agent of src/src prints one text, and before
    it the notice of the cooldown exactly when it makes its remote
    call. *)
Theorem printed_texts `{StrLower} :
  (forall w a, length (printed (events (main app_package w a))) = 1)
  /\ (forall w a,
         length (printed (events (main src_app_package w a)))
         = 1 + remote_calls (events (main src_app_package w a))).
Proof.
  split; intros w a; rewrite main_cases;
    (destruct (negb (os_path_exists _ _)); [reflexivity |]);
    (destruct (negb (os_path_isdir _ _)); [reflexivity |]);
    unfold make_and_generate.
  - destruct (app_generate_cases w
                (App.init w (directory_path a) (max_chars a)) (dry_run a))
      as (tree & _ & ->).
    destruct (App.get_file_summaries _ _); [reflexivity |]. cbv zeta.
    destruct (dry_run a); [reflexivity |].
    now destruct (App.model _).
  - destruct (SrcApp.init w (directory_path a) (max_chars a)) as [agent | e];
      [| reflexivity].
    rewrite bind_lift_ok, src_generate_cases.
    destruct (SrcApp.get_context _ _); [| reflexivity].
    now destruct (dry_run a).
Qed.

(** ** The order of the enumeration *)

Section SortedUnique.
Context {A : Type} (lt : A -> A -> bool).
Hypothesis lt_asym : forall a b, lt a b = true -> lt b a = false.
Hypothesis le_trans :
  forall a b c, lt b a = false -> lt c b = false -> lt c a = false.

Let le (a b : A) : Prop := lt b a = false.

Lemma StronglySorted_unique (l1 : list A) :
  forall l2,
    StronglySorted le l1 -> StronglySorted le l2 -> Permutation l1 l2 ->
    (forall a b, In a l1 -> In b l1 -> le a b -> le b a -> a = b) ->
    l1 = l2.
Proof.
  induction l1 as [| a r1 IH]; intros l2 S1 S2 P Hanti.
  - apply Permutation_nil in P. now subst.
  - destruct l2 as [| b r2].
    + apply Permutation_sym, Permutation_nil in P. discriminate.
    + inversion S1 as [| ? ? S1' F1]; subst. inversion S2 as [| ? ? S2' F2]; subst.
      assert (E : a = b).
      { assert (Ha : In a (b :: r2)) by (eapply Permutation_in; [exact P | now left]).
        assert (Hb : In b (a :: r1))
          by (eapply Permutation_in; [symmetry; exact P | now left]).
        destruct Ha as [-> | Ha]; [reflexivity |].
        destruct Hb as [-> | Hb]; [reflexivity |].
        rewrite Forall_forall in F1, F2.
        apply Hanti; [now left | now right | now apply F1 | now apply F2]. }
      subst b. f_equal. apply IH; auto.
      * now apply Permutation_cons_inv in P.
      * intros x y Hx Hy. apply Hanti; now right.
Qed.

Lemma sorted_perm_unique (l l' : list A) :
  Permutation l l' ->
  (forall a b, In a l -> In b l -> lt a b = false -> lt b a = false -> a = b) ->
  sorted lt l = sorted lt l'.
Proof.
  intros P Hanti. apply StronglySorted_unique.
  - now apply sorted_StronglySorted.
  - now apply sorted_StronglySorted.
  - rewrite (sorted_perm lt l), (sorted_perm lt l'). exact P.
  - intros a b Ha Hb Hab Hba.
    apply (Permutation_in _ (sorted_perm lt l)) in Ha, Hb.
    unfold le in *. now apply Hanti.
Qed.

End SortedUnique.

Lemma perm_filter {A} (keep : A -> bool) (l l' : list A) :
  Permutation l l' -> Permutation (filter keep l) (filter keep l').
Proof.
  induction 1 as [| x l l' P IH | x y l | l l' l'' P1 IH1 P2 IH2]; cbn [filter].
  - constructor.
  - destruct (keep x); [now constructor | assumption].
  - destruct (keep x), (keep y); try reflexivity. apply perm_swap.
  - now transitivity (filter keep l').
Qed.

Lemma NoDup_map_inj {A K} (key : A -> K) (l : list A) (a b : A) :
  NoDup (map key l) -> In a l -> In b l -> key a = key b -> a = b.
Proof.
  induction l as [| x l IH]; intros N Ha Hb E; [destruct Ha |].
  cbn [map] in N. inversion N as [| ? ? Hx N']; subst.
  destruct Ha as [-> | Ha], Hb as [-> | Hb]; auto.
  - exfalso. apply Hx. rewrite E. now apply in_map.
  - exfalso. apply Hx. rewrite <- E. now apply in_map.
Qed.

Lemma str_ltb_both_false (a b : pystr) :
  str_ltb a b = false -> str_ltb b a = false -> a = b.
Proof.
  unfold str_ltb. rewrite (str_compare_antisym a b).
  destruct (str_compare a b) eqn:E; try discriminate.
  intros _ _. now apply str_compare_eq.
Qed.

Lemma distinct_by_children {K} (key : node -> K) (nm : pystr) (l : bool)
  (cs : list node) :
  distinct_by key (Dir nm l cs) ->
  NoDup (map key cs) /\ Forall (distinct_by key) cs.
Proof.
  cbn [distinct_by]. intros [N Hall]. split; [assumption |].
  induction cs as [| c cs IH]; [constructor |].
  destruct Hall as [Hc Hall]. constructor; [assumption |].
  apply IH; [| assumption]. cbn [map] in N. now inversion N.
Qed.

Lemma reordered_name (n n' : node) :
  reordered n n' -> node_name n = node_name n' /\ node_is_dir n = node_is_dir n'.
Proof. now destruct 1. Qed.

Section AppOrder.
Context `{StrLower}.

Let agree (a b : App.entry) : Prop :=
  node_name (fst a) = node_name (fst b)
  /\ node_is_dir (fst a) = node_is_dir (fst b)
  /\ forall p, snd a p = snd b p.

Lemma key_lt_both_false (a b : node) :
  App.key_lt a b = false -> App.key_lt b a = false -> sort_key a = sort_key b.
Proof.
  unfold App.key_lt, sort_key.
  destruct (node_is_file a), (node_is_file b); try discriminate;
    intros E1 E2; f_equal; now apply str_ltb_both_false.
Qed.

Lemma reordered_keys (cs mid : list node) :
  Forall2 reordered cs mid -> map sort_key mid = map sort_key cs.
Proof.
  induction 1 as [| c m cs mid R F IH]; [reflexivity |].
  cbn [map]. rewrite IH. f_equal.
  destruct (reordered_name _ _ R) as [Hn Hd].
  unfold sort_key, node_is_file. now rewrite Hn, Hd.
Qed.

(** Two enumerations of the same children are drawn in the same order
    when their keys are distinct. *)
Lemma visible_entries_perm {T} (path : Path) (f : node -> T) (mid cs' : list node) :
  Permutation mid cs' ->
  NoDup (map sort_key mid) ->
  App.visible_entries path (map (fun c => (c, f c)) mid)
  = App.visible_entries path (map (fun c => (c, f c)) cs').
Proof.
  intros P N. unfold App.visible_entries.
  apply sorted_perm_unique.
  - intros a b. apply key_lt_asym.
  - intros a b c. apply key_lt_le_trans.
  - apply perm_filter. now apply Permutation_map.
  - intros a b Ha Hb E1 E2.
    apply filter_In in Ha, Hb. destruct Ha as [Ha _], Hb as [Hb _].
    apply in_map_iff in Ha, Hb.
    destruct Ha as (x & <- & Hx), Hb as (y & <- & Hy). cbn [fst] in E1, E2.
    assert (x = y)
      by (apply (NoDup_map_inj sort_key mid); auto; now apply key_lt_both_false).
    now subst.
Qed.

(** X17: the drawing of src/app does not depend on the order in which
    the system enumerates the entries of a directory, at any depth, as
    long as no two entries of one directory have the same kind and the
    same lower-cased name. *)
Theorem app_tree_order_independent (n : node) :
  forall n' path prefix,
    reordered n n' -> distinct_by sort_key n ->
    App.add_to_tree n path prefix = App.add_to_tree n' path prefix.
Proof.
  induction n as [nm r1 r2 | nm l cs IH] using node_ind';
    intros n' path prefix R DK.
  - inversion R; subst. reflexivity.
  - inversion R as [| ? ? ? mid cs' F P]; subst.
    destruct l; [| reflexivity]. rewrite !add_to_tree_unfold.
    destruct (distinct_by_children _ _ _ _ DK) as [N DKs].
    rewrite <- (visible_entries_perm path
                  (fun c => App.add_to_tree c (child path (node_name c))) mid cs' P)
      by (now rewrite (reordered_keys _ _ F)).
    apply render_agree, visible_agree.
    clear R DK N P. induction F as [| c m cs mid Rc F IHF]; cbn [map];
      [constructor |].
    inversion IH as [| ? ? IHc IHcs]; subst.
    inversion DKs as [| ? ? DKc DKcs]; subst.
    constructor; [| now apply IHF].
    destruct (reordered_name _ _ Rc) as [Hn Hd].
    repeat split; cbn [fst snd]; auto.
    intros p. rewrite <- Hn. now apply IHc.
Qed.

End AppOrder.

Lemma app_tree_order_independent_witness :
  reordered dir_ab dir_ba
  /\ distinct_by sort_key dir_ab
  /\ App.add_to_tree dir_ab (Path_of (py "proj")) []
     = App.add_to_tree dir_ba (Path_of (py "proj")) [].
Proof.
  assert (R : reordered dir_ab dir_ba).
  { apply (reordered_dir (py "proj") true _
             [text_file "b.py" "b"; Dir (py "A") true []; text_file "a.py" "a"]).
    - repeat constructor. apply (reordered_dir (py "A") true [] [] []); constructor.
    - apply Permutation_sym. apply (Permutation_cons_app [_; _] []). reflexivity. }
  assert (D : distinct_by sort_key dir_ab).
  { cbn [distinct_by dir_ab map]. repeat split; try (repeat constructor; fail).
    repeat constructor; vm_compute; intuition discriminate. }
  split; [exact R |]. split; [exact D |].
  apply (@app_tree_order_independent ascii_lower _ _ _ _ R D).
Defined.

Section RelatedLists.
Context {A : Type} (R : A -> A -> Prop).

Lemma filter_Forall2 (keep : A -> bool) (l1 l2 : list A) :
  (forall a a', R a a' -> keep a = keep a') ->
  Forall2 R l1 l2 -> Forall2 R (filter keep l1) (filter keep l2).
Proof.
  intros Hk. induction 1 as [| a b k1 k2 Hab Hl IH]; cbn [filter];
    [constructor |].
  rewrite (Hk _ _ Hab). destruct (keep b); [constructor |]; assumption.
Qed.

Lemma insert_Forall2 (lt : A -> A -> bool) (x y : A) (l1 l2 : list A) :
  (forall a b a' b', R a a' -> R b b' -> lt a b = lt a' b') ->
  R x y -> Forall2 R l1 l2 -> Forall2 R (insert lt x l1) (insert lt y l2).
Proof.
  intros Hlt Hxy. induction 1 as [| a b k1 k2 Hab Hl IH]; cbn [insert].
  - constructor; [exact Hxy | constructor].
  - rewrite (Hlt _ _ _ _ Hab Hxy). destruct (lt b y).
    + constructor; assumption.
    + constructor; [exact Hxy |]. constructor; assumption.
Qed.

Lemma sorted_Forall2 (lt : A -> A -> bool) (l1 l2 : list A) :
  (forall a b a' b', R a a' -> R b b' -> lt a b = lt a' b') ->
  Forall2 R l1 l2 -> Forall2 R (sorted lt l1) (sorted lt l2).
Proof.
  intros Hlt. induction 1 as [| a b k1 k2 Hab Hl IH]; cbn [sorted fold_right];
    [constructor |].
  now apply insert_Forall2.
Qed.

End RelatedLists.

Section SrcOrder.

Let agree (a b : SrcApp.entry) : Prop :=
  node_name (fst a) = node_name (fst b)
  /\ node_is_dir (fst a) = node_is_dir (fst b)
  /\ forall p, snd a p = snd b p.

Lemma visible_items_agree (root : Path) (l1 l2 : list SrcApp.entry) :
  Forall2 agree l1 l2 ->
  Forall2 agree (SrcApp.visible_items root l1) (SrcApp.visible_items root l2).
Proof.
  intros Hl. unfold SrcApp.visible_items.
  apply sorted_Forall2.
  - intros a b a' b' (Hn & _) (Hn' & _). now rewrite Hn, Hn'.
  - apply filter_Forall2; [| assumption].
    intros a a' (Hn & _). now rewrite Hn.
Qed.

Lemma tree_lines_agree (indent : pystr) (l1 l2 : list SrcApp.entry) :
  Forall2 agree l1 l2 ->
  SrcApp.tree_lines indent l1 = SrcApp.tree_lines indent l2.
Proof.
  induction 1 as [| [e1 b1] [e2 b2] l1 l2 (Hn & Hd & Hb) Hl IH];
    [reflexivity |].
  cbn [fst snd] in Hn, Hd, Hb. cbn [SrcApp.tree_lines].
  assert (En : is_nil l1 = is_nil l2) by (destruct Hl; reflexivity).
  unfold SrcApp.item_line. now rewrite IH, Hn, Hd, En, Hb.
Qed.

Lemma reordered_names (cs mid : list node) :
  Forall2 reordered cs mid -> map node_name mid = map node_name cs.
Proof.
  induction 1 as [| c m cs mid R F IH]; [reflexivity |].
  cbn [map]. rewrite IH. f_equal.
  now destruct (reordered_name _ _ R).
Qed.

Lemma visible_items_perm {T} (root : Path) (f : node -> T) (mid cs' : list node) :
  Permutation mid cs' ->
  NoDup (map node_name mid) ->
  SrcApp.visible_items root (map (fun c => (c, f c)) mid)
  = SrcApp.visible_items root (map (fun c => (c, f c)) cs').
Proof.
  intros P N. unfold SrcApp.visible_items.
  apply sorted_perm_unique.
  - intros a b. rewrite !path_lt_siblings. apply str_ltb_asym.
  - intros a b c. rewrite !path_lt_siblings. apply str_ltb_le_trans.
  - apply perm_filter. now apply Permutation_map.
  - intros a b Ha Hb E1 E2.
    apply filter_In in Ha, Hb. destruct Ha as [Ha _], Hb as [Hb _].
    apply in_map_iff in Ha, Hb.
    destruct Ha as (x & <- & Hx), Hb as (y & <- & Hy). cbn [fst] in E1, E2.
    rewrite path_lt_siblings in E1, E2.
    assert (x = y)
      by (apply (NoDup_map_inj node_name mid); auto;
          now apply str_ltb_both_false).
    now subst.
Qed.

(** X18: the drawing of src/src, and whether it raises, does not
    depend on the order in which the system enumerates the entries of a
    directory, at any depth, the names of the entries of one directory
    being distinct. *)
Theorem src_tree_order_independent (n : node) :
  forall n' root indent,
    reordered n n' -> distinct_by node_name n ->
    SrcApp.tree_of n root indent = SrcApp.tree_of n' root indent.
Proof.
  induction n as [nm r1 r2 | nm l cs IH] using node_ind';
    intros n' root indent R DK.
  - inversion R; subst. reflexivity.
  - inversion R as [| ? ? ? mid cs' F P]; subst.
    destruct l; [| reflexivity]. rewrite !tree_of_unfold.
    destruct (distinct_by_children _ _ _ _ DK) as [N DKs].
    rewrite <- (visible_items_perm root
                  (fun c => SrcApp.tree_of c (child root (node_name c))) mid cs' P)
      by (now rewrite (reordered_names _ _ F)).
    f_equal. apply tree_lines_agree, visible_items_agree.
    clear R DK N P. induction F as [| c m cs mid Rc F IHF]; cbn [map];
      [constructor |].
    inversion IH as [| ? ? IHc IHcs]; subst.
    inversion DKs as [| ? ? DKc DKcs]; subst.
    constructor; [| now apply IHF].
    destruct (reordered_name _ _ Rc) as [Hn Hd].
    repeat split; cbn [fst snd]; auto.
    intros p. rewrite <- Hn. now apply IHc.
Qed.

End SrcOrder.

Lemma src_tree_order_independent_witness :
  reordered dir_ab dir_ba
  /\ distinct_by node_name dir_ab
  /\ SrcApp.tree_of dir_ab (Path_of (py "proj")) []
     = SrcApp.tree_of dir_ba (Path_of (py "proj")) [].
Proof.
  assert (R : reordered dir_ab dir_ba).
  { apply (reordered_dir (py "proj") true _
             [text_file "b.py" "b"; Dir (py "A") true []; text_file "a.py" "a"]).
    - repeat constructor. apply (reordered_dir (py "A") true [] [] []); constructor.
    - apply Permutation_sym. apply (Permutation_cons_app [_; _] []). reflexivity. }
  assert (D : distinct_by node_name dir_ab).
  { cbn [distinct_by dir_ab map]. repeat split; try (repeat constructor; fail).
    repeat constructor; vm_compute; intuition discriminate. }
  split; [exact R |]. split; [exact D |].
  apply (src_tree_order_independent _ _ _ _ R D).
Defined.
